(** * SPDY framing core: header compression plumbing and the SPDY/2 NOOP frame

    A shallow embedding of [compression.go] (package [spdy]) and of
    [spdy2/frames/noop.go] (package [frames]), with the properties of the
    specification that concern them.

    Conventions.
    - A Go [[]byte] is a [list byte]; a Go [string] is a [string]; the
      conversion [string(b)] is [string_of_list_byte].
    - A [bytes.Buffer] is the list of its unread bytes.
    - Go's [(value, error)] results and panics are the three constructors
      of [Result].
    - The [sync.Mutex] of the compressor objects is not modelled: every
      function below is one critical section, run to completion. *)

From Stdlib Require Import ZArith List Lia String.
From Stdlib.Strings Require Import Byte.
From stdpp Require Import gmap strings list.

Local Open Scope Z_scope.

(** ** Errors, panics and results *)

(** The error values the modelled code can return. [errorString] is the
    value built by [errors.New]; the other constructors are the error
    constructors of package [common] named by the specification. *)
Inductive error : Type :=
| errorString (msg : string)
| IncorrectDataLength (got want : Z)
| ShortRead
| ProtocolError
| InvalidFlags.

(** What a Go panic carries: the argument of [panic(err)], or the runtime
    error of a method call through a nil pointer. *)
Inductive panic_value : Type :=
| PanicError (e : error)
| NilPointerDereference.

Inductive Result (A : Type) : Type :=
| Ok (a : A)
| Err (e : error)
| Panicked (p : panic_value).

Arguments Ok {A} a.
Arguments Err {A} e.
Arguments Panicked {A} p.

(** ** Wire codec *)

Definition byte_to_Z (b : byte) : Z := Z.of_N (Byte.to_N b).

Definition byte_of_Z (z : Z) : byte :=
  match Byte.of_N (Z.to_N (z mod 256)) with
  | Some b => b
  | None => x00
  end.

(** Big-endian value of a byte slice, most significant byte first. *)
Definition be_value (b : list byte) : Z :=
  fold_left (fun acc x => Z.lor (Z.shiftl acc 8) (byte_to_Z x)) b 0.

(** Modelled from the spec: [bytesToUint16] (spec 4.1, [u16_be]) is absent
    from the sources; it is the big-endian decoder over a 2-byte slice. *)
Definition bytesToUint16 (b : list byte) : Z := be_value (take 2 b).

(** Modelled from the spec: [BytesToUint24] (spec 4.1, [u24_be]) is absent
    from the sources; it is the big-endian decoder over a 3-byte slice. *)
Definition BytesToUint24 (b : list byte) : Z := be_value (take 3 b).

(** Modelled from the spec: [bytesToUint32] (spec 4.1, [u32_be]) is absent
    from the sources; it is the big-endian decoder over a 4-byte slice. *)
Definition bytesToUint32 (b : list byte) : Z := be_value (take 4 b).

(** Big-endian encoding of [n] on [w] bytes (spec 6: every length and
    count of the header block is written this way). *)
Fixpoint be_bytes (w : nat) (n : Z) : list byte :=
  match w with
  | O => []
  | S w' => be_bytes w' (Z.shiftr n 8) ++ [byte_of_Z n]
  end.

(** The slice expression [data[lo:hi]]. *)
Definition slice (data : list byte) (lo hi : nat) : list byte :=
  take (hi - lo) (drop lo data).

(** A byte source ([io.Reader]) that yields the listed bytes and then
    reports the end of the stream. *)
Definition Reader : Type := list byte.

(** Modelled from the spec: [common.ReadExactly] (spec 4.1, [read_exactly])
    is absent from the sources. It returns exactly [n] bytes, or fails with
    [ShortRead] when the source yields fewer; a failed read has drained the
    source. *)
Definition ReadExactly (reader : Reader) (n : nat) : Reader * list byte * option error :=
  if (n <=? length reader)%nat
  then (drop n reader, take n reader, None)
  else ([], [], Some ShortRead).

Module Frames.

(** Control frame type of NOOP (spec 3: [NOOP(5, v2 only)]). *)
Definition NOOP : Z := 5.

(** [type NoopFrame struct{}] *)
Inductive NoopFrame : Type := mkNoopFrame.

(** Modelled from the spec: [controlFrameCommonProcessing] (spec 4.3, common
    header validation and flag validation) is absent from the sources. Over
    the first five bytes of a frame it verifies the control bit, that the
    version is the one of package [spdy2], that the declared type is the
    expected one, and that no flag outside the allowed mask is set. *)
Definition controlFrameCommonProcessing
    (data : list byte) (frameType : Z) (flags : byte) : option error :=
  let b0 := byte_to_Z (nth 0 data x00) in
  let b1 := byte_to_Z (nth 1 data x00) in
  if negb (Z.testbit b0 7) then Some ProtocolError
  else if negb (Z.lor (Z.shiftl (Z.land b0 127) 8) b1 =? 2) then Some ProtocolError
  else if negb (bytesToUint16 (slice data 2 4) =? frameType) then Some ProtocolError
  else if negb (Z.land (byte_to_Z (nth 4 data x00))
                       (Z.lnot (byte_to_Z flags)) =? 0) then Some InvalidFlags
  else None.

(** [func (frame *NoopFrame) ReadFrom(reader io.Reader) (int64, error)].
    The model also returns what is left of the source. *)
Definition ReadFrom (frame : NoopFrame) (reader : Reader) : Reader * Z * option error :=
  match ReadExactly reader 8 with
  | (reader', _, Some err) => (reader', 0, Some err)
  | (reader', data, None) =>
      match controlFrameCommonProcessing (slice data 0 5) NOOP x00 with
      | Some err => (reader', 8, Some err)
      | None =>
          (* Get and check length. *)
          let length := BytesToUint24 (slice data 5 8) in
          if negb (length =? 0)
          then (reader', 8, Some (IncorrectDataLength length 0))
          else (reader', 8, None)
      end
  end.

(** [func (frame *NoopFrame) WriteTo(writer io.Writer) (int64, error)].
    The sink is the list of bytes written to it so far; the body performs no
    write. *)
Definition WriteTo (frame : NoopFrame) (writer : list byte) : list byte * Z * option error :=
  (writer, 0, None).

(** The eight bytes of scenario S1. *)
Definition noop_bytes : list byte := [x80; x02; x00; x05; x00; x00; x00; x00].

End Frames.

(** ** Header *)

(** Modelled from the spec: the [Header] type and its [Add] method are absent
    from the sources. A Header maps a name to the ordered sequence of its
    values (spec 3); [Add] appends a value to the sequence of its name. *)
Abbreviation Header := (gmap string (list string)).

Definition Header_Add (h : Header) (name value : string) : Header :=
  <[name := default [] (h !! name) ++ [value]]> h.

(** ** Library functions used by the compressor *)

(** [bytes.Split(s, []byte{sep})]: the segments of [s] between the
    occurrences of [sep]; one segment more than there are separators. *)
Fixpoint bytes_Split (s : list byte) (sep : byte) : list (list byte) :=
  match s with
  | [] => [[]]
  | b :: s' =>
      if Byte.eqb b sep then [] :: bytes_Split s' sep
      else match bytes_Split s' sep with
           | seg :: segs => (b :: seg) :: segs
           | [] => [[b]]
           end
  end.

(** [make([]byte, n)]. The sizes [Decompress] passes are decoded lengths,
    which are never negative ([dechunk_range] below). *)
Definition make (n : Z) : list byte := replicate (Z.to_nat n) x00.

(** What a [Read(p)] leaves in [p]: the delivered bytes over the first
    positions, the former content after them. *)
Definition fill (p got : list byte) : list byte :=
  take (length p) (got ++ drop (length got) p).

(** Conversion to Go's [int] on a 64-bit platform. *)
Definition int (z : Z) : Z := (z + 2 ^ 63) mod 2 ^ 64 - 2 ^ 63.

(** [zlib.BestCompression] *)
Definition BestCompression : Z := 9.

(** Constants of package [spdy] that are declared outside the sources at
    hand: the largest frame size and the two DEFLATE dictionaries. *)
Class Constants : Type := {
  MAX_FRAME_SIZE : Z;
  HeaderDictionaryV2 : list byte;
  HeaderDictionaryV3 : list byte
}.

(** The reading half of [compress/zlib], seen from [Decompress]. A reader
    [R] pulls compressed bytes from the [bytes.Buffer] it was opened on;
    since that buffer is also a field of the [Decompressor], every operation
    takes the buffer's unread bytes and returns what it left of them.
    - [NewReaderDict src dict] returns the reader (nil on failure) and the
      error.
    - [zRead r src n] is [r.Read(p)] with [len(p) = n]: the bytes stored
      into [p], at most [n] of them, and the error. *)
Class ZlibReader (R : Type) : Type := {
  NewReaderDict : list byte -> list byte -> list byte * option R * option error;
  zRead : R -> list byte -> nat -> R * list byte * list byte * option error
}.

(** The writing half of [compress/zlib], seen from [Compress]. Each
    operation returns the bytes it appended to the writer's sink. *)
Class ZlibWriter (W : Type) : Type := {
  NewWriterLevelDict : Z -> list byte -> option W * option error;
  zWrite : W -> list byte -> W * list byte * option error;
  zFlush : W -> W * list byte * option error
}.

Definition versionError : error := errorString "spdy: Version not supported.".

(** ** Decompressor *)

Record Decompressor (R : Type) : Type := mkDecompressor {
  d_in : option (list byte);
  d_out : option R;
  d_version : Z
}.

Arguments mkDecompressor {R} d_in d_out d_version.
Arguments d_in {R} d.
Arguments d_out {R} d.
Arguments d_version {R} d.

Definition NewDecompressor {R : Type} (version : Z) : Decompressor R :=
  mkDecompressor None None version.

(** Lines 37-42 of [Decompress]: the source buffer is created over [data],
    or emptied by [Reset] before [data] is written to it. *)
Definition load_input {R : Type} (d : Decompressor R) (data : list byte) : Decompressor R :=
  match d_in d with
  | None => mkDecompressor (Some data) (d_out d) (d_version d)
  | Some unread =>
      let reset : list byte := [] in
      mkDecompressor (Some (reset ++ data)) (d_out d) (d_version d)
  end.

Section Decompress.

Context {R : Type} `{ZR : ZlibReader R} `{K : Constants}.

(** Lines 46-59: the reader is opened on the first call. Returns the buffer,
    the value of [d.out] and the error. *)
Definition open_reader (version : Z) (out : option R) (src : list byte)
  : list byte * option R * option error :=
  match out with
  | Some r => (src, Some r, None)
  | None =>
      match version with
      | 2 => NewReaderDict src HeaderDictionaryV2
      | 3 => NewReaderDict src HeaderDictionaryV3
      | _ => (src, None, Some versionError)
      end
  end.

(** Lines 61-78: the width of the fixed fields and their decoder. *)
Definition chunk_size (version : Z) : option nat :=
  match version with
  | 2 => Some 2%nat
  | 3 => Some 4%nat
  | _ => None
  end.

Definition dechunk (version : Z) (b : list byte) : Z :=
  match version with
  | 2 => int (bytesToUint16 b)
  | _ => int (bytesToUint32 b)
  end.

(** The state of the loop of lines 90-135: the reader and its buffer, the
    [chunk] slice, the headers so far, the remaining budget, and the sizes
    of the byte slices made so far with [make([]byte, n)] (for [chunk], the
    names and the values; what [bytes.Split] and [Header.Add] allocate once
    a value is read is not recorded). The counter [length] of the source
    only feeds the debug print and is left out. *)
Record LoopState : Type := mkLoop {
  ls_r : R;
  ls_src : list byte;
  ls_chunk : list byte;
  ls_headers : Header;
  ls_bounds : Z;
  ls_allocs : list Z
}.

(** Lines 131-134: every segment of [values] is added under [name]. *)
Definition add_values (headers : Header) (name values : list byte) : Header :=
  fold_left (fun h value => Header_Add h (string_of_list_byte name) (string_of_list_byte value))
            (bytes_Split values x00) headers.

(** One iteration of the loop. *)
Definition read_pair (version : Z) (s : LoopState) : LoopState * Result unit :=
  (* Get the name. *)
  let '(r, src, got, err) := zRead (ls_r s) (ls_src s) (length (ls_chunk s)) in
  let chunk := fill (ls_chunk s) got in
  let s1 := mkLoop r src chunk (ls_headers s) (ls_bounds s) (ls_allocs s) in
  match err with
  | Some e => (s1, Err e)
  | None =>
  let nameLength := dechunk version chunk in
  if nameLength >? ls_bounds s
  then (s1, Err (errorString "Error: Incorrect header name length."))
  else
  let bounds := int (ls_bounds s - nameLength) in
  let allocs := ls_allocs s ++ [nameLength] in
  let '(r, src, got, err) := zRead r src (length (make nameLength)) in
  let name := fill (make nameLength) got in
  let s2 := mkLoop r src chunk (ls_headers s) bounds allocs in
  match err with
  | Some e => (s2, Panicked (PanicError e))
  | None =>
  (* Get the value. *)
  let '(r, src, got, err) := zRead r src (length chunk) in
  let chunk := fill chunk got in
  let s3 := mkLoop r src chunk (ls_headers s) bounds allocs in
  match err with
  | Some e => (s3, Panicked (PanicError e))
  | None =>
  let valueLength := dechunk version chunk in
  if valueLength >? bounds
  then (s3, Err (errorString "Error: Incorrect header values length."))
  else
  let bounds := int (bounds - valueLength) in
  let allocs := allocs ++ [valueLength] in
  let '(r, src, got, err) := zRead r src (length (make valueLength)) in
  let values := fill (make valueLength) got in
  match err with
  | Some e => (mkLoop r src chunk (ls_headers s) bounds allocs, Err e)
  | None =>
  (* Split the value on null boundaries. *)
  (mkLoop r src chunk (add_values (ls_headers s) name values) bounds allocs, Ok tt)
  end end end end.

(** [for i := 0; i < numNameValuePairs; i++ { ... }], with [n] the number of
    iterations still to run. *)
Fixpoint read_pairs (version : Z) (n : nat) (s : LoopState) : LoopState * Result unit :=
  match n with
  | O => (s, Ok tt)
  | S n' =>
      match read_pair version s with
      | (s', Ok _) => read_pairs version n' s'
      | (s', Err e) => (s', Err e)
      | (s', Panicked p) => (s', Panicked p)
      end
  end.

(** [func (d *Decompressor) Decompress(data []byte) (headers Header, err error)].
    Returns the decompressor after the call, the sizes of the slices the
    call allocated, in order, and the result. *)
Definition Decompress (d : Decompressor R) (data : list byte)
  : Decompressor R * list Z * Result Header :=
  let d := load_input d data in
  let src := default [] (d_in d) in
  let version := d_version d in
  (* Initialise the decompressor with the appropriate dictionary. *)
  let '(src, out, err) := open_reader version (d_out d) src in
  match err with
  | Some e => (mkDecompressor (Some src) out version, [], Err e)
  | None =>
  match out with
  | None => (mkDecompressor (Some src) out version, [], Panicked NilPointerDereference)
  | Some r =>
  (* SPDY/2 uses 16-bit fixed fields, where SPDY/3 uses 32-bit fields. *)
  match chunk_size version with
  | None => (mkDecompressor (Some src) out version, [], Err versionError)
  | Some width =>
  let chunk := make (Z.of_nat width) in
  let allocs := [Z.of_nat width] in
  (* Read in the number of name/value pairs. *)
  let '(r, src, got, err) := zRead r src (length chunk) in
  let chunk := fill chunk got in
  match err with
  | Some e => (mkDecompressor (Some src) (Some r) version, allocs, Panicked (PanicError e))
  | None =>
  let numNameValuePairs := dechunk version chunk in
  let '(s, res) :=
    read_pairs version (Z.to_nat numNameValuePairs)
               (mkLoop r src chunk ∅ (MAX_FRAME_SIZE - 12) allocs) in
  (mkDecompressor (Some (ls_src s)) (Some (ls_r s)) version, ls_allocs s,
   match res with
   | Ok _ => Ok (ls_headers s)
   | Err e => Err e
   | Panicked p => Panicked p
   end)
  end end end end.

End Decompress.

Arguments LoopState R : clear implicits.

(** ** Compressor *)

Record Compressor (W : Type) : Type := mkCompressor {
  c_buf : option (list byte);
  c_w : option W;
  c_version : Z
}.

Arguments mkCompressor {W} c_buf c_w c_version.
Arguments c_buf {W} c.
Arguments c_w {W} c.
Arguments c_version {W} c.

Definition NewCompressor {W : Type} (version : Z) : Compressor W :=
  mkCompressor None None version.

Section Compress.

Context {W : Type} `{ZW : ZlibWriter W} `{K : Constants}.

(** Lines 171-178: the writer is created over the new buffer. Returns the
    value of [c.w] and the error. *)
Definition open_writer (version : Z) (w : option W) : option W * option error :=
  match version with
  | 2 => NewWriterLevelDict BestCompression HeaderDictionaryV2
  | 3 => NewWriterLevelDict BestCompression HeaderDictionaryV3
  | _ => (w, Some versionError)
  end.

(** Lines 187-193: [data] is written through [c.w] into [c.buf], the writer
    is flushed, and the content of the buffer is returned. *)
Definition write_flush (buf : list byte) (w : option W) (version : Z) (data : list byte)
  : Compressor W * Result (list byte) :=
  match w with
  | None => (mkCompressor (Some buf) None version, Panicked NilPointerDereference)
  | Some w0 =>
      let '(w1, written, err) := zWrite w0 data in
      let buf := buf ++ written in
      match err with
      | Some e => (mkCompressor (Some buf) (Some w1) version, Err e)
      | None =>
          let '(w2, flushed, _) := zFlush w1 in
          let buf := buf ++ flushed in
          (mkCompressor (Some buf) (Some w2) version, Ok buf)
      end
  end.

(** [func (c *Compressor) Compress(data []byte) ([]byte, error)]. The
    result is the content, when the call returns, of the slice
    [c.buf.Bytes()]; that slice shares the storage of [c.buf], which the
    next call resets and writes again, so the model says nothing of what a
    caller reads from it after a later call. *)
Definition Compress (c : Compressor W) (data : list byte)
  : Compressor W * Result (list byte) :=
  match c_buf c with
  | None =>
      let buf : list byte := [] in
      let '(w, err) := open_writer (c_version c) (c_w c) in
      match err with
      | Some e => (mkCompressor (Some buf) w (c_version c), Err e)
      | None => write_flush buf w (c_version c) data
      end
  | Some _ =>
      let reset : list byte := [] in
      write_flush reset (c_w c) (c_version c) data
  end.

End Compress.

(** ** Driving a compressor and a decompressor over several inputs *)

Section Pipeline.

Context {R W : Type} `{ZR : ZlibReader R} `{ZW : ZlibWriter W} `{K : Constants}.

(** Successive calls of [Decompress] on one decompressor. *)
Fixpoint decompress_all (d : Decompressor R) (inputs : list (list byte)) : list (Result Header) :=
  match inputs with
  | [] => []
  | data :: rest => let '(d', _, h) := Decompress d data in h :: decompress_all d' rest
  end.

(** One direction of a connection: each block is compressed by the one
    compressor and its output decompressed by the one decompressor, block
    after block. The slice [Compress] returns shares the storage of [c.buf],
    which the next [Compress] resets: each output is consumed before the
    next block is compressed. A block whose compression fails is reported
    with that failure. *)
Fixpoint exchange (c : Compressor W) (d : Decompressor R) (blocks : list (list byte))
  : list (Result Header) :=
  match blocks with
  | [] => []
  | block :: rest =>
      match Compress c block with
      | (c', Ok data) => let '(d', _, h) := Decompress d data in h :: exchange c' d' rest
      | (c', Err e) => Err e :: exchange c' d rest
      | (c', Panicked p) => Panicked p :: exchange c' d rest
      end
  end.

End Pipeline.

(** ** A codec without compression

    The simplest implementation of the two zlib interfaces: the stream is
    the data itself. Its reader is the [bytes.Buffer] it is opened on: a
    read delivers what the buffer holds, up to the size asked for, and
    reports the end of the stream when asked for bytes while the buffer is
    empty. It serves to run the model on concrete inputs where the outcome
    does not depend on how zlib frames and delivers the bytes; the runs
    that do depend on it use the codec [Stored] below. *)
Module Plain.

Definition EOF : error := errorString "EOF".

Definition read (r : unit) (src : list byte) (n : nat)
  : unit * list byte * list byte * option error :=
  match n, src with
  | S _, [] => (r, [], [], Some EOF)
  | _, _ => (r, drop n src, take n src, None)
  end.

#[export] Instance reader : ZlibReader unit := {
  NewReaderDict src dict := (src, Some tt, None);
  zRead := read
}.

#[export] Instance writer : ZlibWriter unit := {
  NewWriterLevelDict level dict := (Some tt, None);
  zWrite w data := (w, data, None);
  zFlush w := (w, [], None)
}.

#[export] Instance constants : Constants := {
  MAX_FRAME_SIZE := 16777215;
  HeaderDictionaryV2 := [];
  HeaderDictionaryV3 := []
}.

End Plain.

(** ** A zlib codec that stores

    A second implementation of the two zlib interfaces, in the zlib
    format itself: the two header bytes and the Adler-32 of the dictionary,
    then DEFLATE stored blocks, and one empty stored block for each flush.
    The writer stores where the writer of the package compresses; the
    reader follows the reader of [compress/flate] on such a stream:
    - it pulls bytes from its source only when it has nothing left to
      deliver, block after block, until a flush point (an empty block, or
      the 32768-byte window being full) hands it bytes to deliver;
    - a read is served from what the last flush point handed over, up to
      the size asked for, so it can be served fewer bytes than asked;
    - a read that finds nothing to deliver and no byte in the source fails
      with [unexpected EOF], a read of zero bytes included, and the reader
      reports that error at every later read.
    Other block types are outside this model and reported as an error. *)
Module Stored.

Definition unexpectedEOF : error := errorString "unexpected EOF".
Definition ErrHeader : error := errorString "zlib: invalid header".
Definition ErrDictionary : error := errorString "zlib: invalid dictionary".
Definition CorruptInput : error := errorString "flate: corrupt input".
Definition Unsupported : error := errorString "flate: block type outside the model".
Definition Stalled : error := errorString "flate: no progress".

(** [adler32.Checksum] *)
Definition adler32 (data : list byte) : Z :=
  let '(a, b) :=
    fold_left (fun (ab : Z * Z) x =>
                 let a' := (ab.1 + byte_to_Z x) mod 65521 in (a', (ab.2 + a') mod 65521))
              data (1, 0) in
  b * 65536 + a.

Definition window : nat := Z.to_nat 32768.

(** The reader: the bytes handed over by the last flush point and not yet
    delivered, the bytes decoded since, the write position in the window,
    what is left to copy of the current stored block, and the error. *)
Record Inflate : Type := mkInflate {
  toRead : list byte;
  unflushed : list byte;
  hp : nat;
  copyLen : nat;
  failed : option error
}.

Definition flush (f : Inflate) : Inflate :=
  mkInflate (unflushed f) [] (if (hp f =? window)%nat then O else hp f) (copyLen f) (failed f).

Definition fail (f : Inflate) (e : error) : Inflate :=
  mkInflate (toRead f) (unflushed f) (hp f) (copyLen f) (Some e).

(** Copy of a stored block into the window, up to the end of the window. *)
Definition copyData (f : Inflate) (src : list byte) : Inflate * list byte :=
  let m := Nat.min (window - hp f) (copyLen f) in
  if (length src <? m)%nat
  then (fail (mkInflate (toRead f) (unflushed f ++ src) (hp f + length src)
                        (copyLen f - length src) None) unexpectedEOF, [])
  else
    let f1 := mkInflate (toRead f) (unflushed f ++ take m src) (hp f + m) (copyLen f - m) None in
    (if (hp f1 =? window)%nat then flush f1 else f1, drop m src).

(** Header of the next block; only stored blocks that are not final are
    within the model. *)
Definition nextBlock (f : Inflate) (src : list byte) : Inflate * list byte :=
  match src with
  | [] => (fail f unexpectedEOF, [])
  | h :: src1 =>
      if negb (Z.land (byte_to_Z h) 7 =? 0) then (fail f Unsupported, src1)
      else
        match src1 with
        | l0 :: l1 :: n0 :: n1 :: src2 =>
            let n := byte_to_Z l0 + 256 * byte_to_Z l1 in
            let nn := byte_to_Z n0 + 256 * byte_to_Z n1 in
            if negb (nn =? 65535 - n) then (fail f CorruptInput, src2)
            else if n =? 0 then (flush f, src2)
            else copyData (mkInflate (toRead f) (unflushed f) (hp f) (Z.to_nat n) None) src2
        | _ => (fail f unexpectedEOF, [])
        end
  end.

Definition step (f : Inflate) (src : list byte) : Inflate * list byte :=
  match copyLen f with
  | O => nextBlock f src
  | S _ => copyData f src
  end.

(** [Read(p)] with [len(p) = n]. Every step takes a byte from the source or
    fails, so [fuel] steps suffice when [fuel] exceeds the length of the
    source. *)
Fixpoint readLoop (fuel : nat) (f : Inflate) (src : list byte) (n : nat)
  : Inflate * list byte * list byte * option error :=
  match toRead f with
  | _ :: _ =>
      let rest := drop n (toRead f) in
      (mkInflate rest (unflushed f) (hp f) (copyLen f) (failed f), src, take n (toRead f),
       match rest with [] => failed f | _ => None end)
  | [] =>
      match failed f with
      | Some e => (f, src, [], Some e)
      | None =>
          match fuel with
          | O => (fail f Stalled, src, [], Some Stalled)
          | S fuel' =>
              let '(f1, src1) := step f src in
              let f2 := match failed f1, toRead f1 with
                        | Some _, [] => flush f1
                        | _, _ => f1
                        end in
              readLoop fuel' f2 src1 n
          end
      end
  end.

Definition read (f : Inflate) (src : list byte) (n : nat)
  : Inflate * list byte * list byte * option error :=
  readLoop (S (length src)) f src n.

(** [zlib.NewReaderDict]: the header is read and checked at once. *)
Definition newReaderDict (src dict : list byte) : list byte * option Inflate * option error :=
  match src with
  | cmf :: flg :: rest =>
      if negb (Z.land (byte_to_Z cmf) 15 =? 8)
         || negb ((byte_to_Z cmf * 256 + byte_to_Z flg) mod 31 =? 0)
      then (rest, None, Some ErrHeader)
      else if Z.testbit (byte_to_Z flg) 5
      then match rest with
           | d0 :: d1 :: d2 :: d3 :: rest' =>
               if be_value [d0; d1; d2; d3] =? adler32 dict
               then (rest', Some (mkInflate [] [] (length dict mod window) O None), None)
               else (rest', None, Some ErrDictionary)
           | _ => ([], None, Some unexpectedEOF)
           end
      else (rest, Some (mkInflate [] [] O O None), None)
  | _ => ([], None, Some unexpectedEOF)
  end.

#[export] Instance reader : ZlibReader Inflate := {
  NewReaderDict := newReaderDict;
  zRead := read
}.

(** The writer: whether the header is written, and the dictionary. *)
Record Deflate : Type := mkDeflate {
  wroteHeader : bool;
  w_dict : list byte
}.

(** The header for [BestCompression] with a dictionary. *)
Definition header (w : Deflate) : list byte :=
  if wroteHeader w then [] else [x78; xf9] ++ be_bytes 4 (adler32 (w_dict w)).

Definition le16 (n : Z) : list byte := [byte_of_Z n; byte_of_Z (Z.shiftr n 8)].

Fixpoint storedBlocks (fuel : nat) (data : list byte) : list byte :=
  match fuel, data with
  | O, _ | _, [] => []
  | S fuel', _ =>
      let chunk := take (Z.to_nat 65535) data in
      let n := Z.of_nat (length chunk) in
      x00 :: le16 n ++ le16 (65535 - n) ++ chunk
      ++ storedBlocks fuel' (drop (Z.to_nat 65535) data)
  end.

#[export] Instance writer : ZlibWriter Deflate := {
  NewWriterLevelDict level dict :=
    if (level <? -2) || (level >? 9)
    then (None, Some (errorString "zlib: invalid compression level"))
    else (Some (mkDeflate false dict), None);
  zWrite w data :=
    (mkDeflate true (w_dict w), header w ++ storedBlocks (length data) data, None);
  zFlush w :=
    (mkDeflate true (w_dict w), header w ++ [x00; x00; x00; xff; xff], None)
}.

(** The stream of a new writer after two writes, each followed by a
    flush. *)
Definition two_writes (dict part1 part2 : list byte) : list byte :=
  let '(w1, o1, _) := zWrite (mkDeflate false dict) part1 in
  let '(w2, o2, _) := zFlush w1 in
  let '(w3, o3, _) := zWrite w2 part2 in
  let '(w4, o4, _) := zFlush w3 in
  o1 ++ o2 ++ o3 ++ o4.

End Stored.

(** ** The header block of the specification *)

(** A name/value pair as it travels: the name and the NUL-joined values. *)
Definition NameValue : Type := list byte * list byte.

(** Width in bytes of counts and lengths (spec 6): 2 for SPDY/2, 4 for
    SPDY/3. *)
Definition field_width (version : Z) : nat := if version =? 2 then 2%nat else 4%nat.

Definition zlen (b : list byte) : Z := Z.of_nat (length b).

(** Wire form of the pairs of a header block (spec 6). *)
Definition wire_pairs (w : nat) (pairs : list NameValue) : list byte :=
  flat_map (fun p => be_bytes w (zlen p.1) ++ p.1 ++ be_bytes w (zlen p.2) ++ p.2) pairs.

(** Wire form of a header block: the pair count, then the pairs. *)
Definition wire_block (version : Z) (pairs : list NameValue) : list byte :=
  be_bytes (field_width version) (Z.of_nat (length pairs))
  ++ wire_pairs (field_width version) pairs.

(** The values a header block gives to [name] (spec 4.2, steps 4 and 5): the
    NUL-separated segments of the values of the pairs called [name], in the
    order of the block. *)
Definition block_values (pairs : list NameValue) (name : string) : list string :=
  flat_map (fun p => if String.eqb (string_of_list_byte p.1) name
                     then map string_of_list_byte (bytes_Split p.2 x00)
                     else []) pairs.

(** The Header a block stands for: [name] is bound exactly when the block
    gives it a value. *)
Definition encodes (pairs : list NameValue) (h : Header) : Prop :=
  forall name : string,
    h !! name = match block_values pairs name with
                | [] => None
                | vs => Some vs
                end.

(** A block of three pairs, two of them under the name [a]. *)
Definition sample_pairs : list NameValue :=
  [([x61], [x62; x00; x63]); ([x64], []); ([x61], [x65])].

(** Three blocks of one pair each, for version 3. *)
Definition three_blocks : list (list byte) :=
  [wire_block 3 [([x61], [x62])]; wire_block 3 [([x63], [x64])];
   wire_block 3 [([x65], [x66])]].

(** A block of one pair with a value of six bytes, for version 3. *)
Definition six_block : list byte := wire_block 3 [([x6e], [x61; x62; x63; x64; x65; x66])].

(** ** The allocation budget *)

Definition total (sizes : list Z) : Z := fold_right Z.add 0 sizes.

(** [within_budget budget sizes]: a budget that starts at [budget] and is
    decremented by each size in turn covers every size at the moment it
    comes. *)
Fixpoint within_budget (budget : Z) (sizes : list Z) : Prop :=
  match sizes with
  | [] => True
  | n :: rest => 0 <= n <= budget /\ within_budget (budget - n) rest
  end.

(** The loop of [Decompress] has spent its budget as its allocations say:
    after the slice [chunk], the sizes allocated are within the initial
    budget, and [bounds] is what they left of it. *)
Definition budget_kept {R : Type} `{ZR : ZlibReader R} (budget : Z) (s : LoopState R) : Prop :=
  exists width sizes,
    ls_allocs s = width :: sizes
    /\ within_budget budget sizes
    /\ ls_bounds s = budget - total sizes.

(** ** What the reads of a call bring *)

(** [served r src fields r' src']: from the state [r] over the buffer
    [src], the successive reads of the sizes of [fields] are served these
    fields, each in full and without error, and leave [r'] and [src']. *)
Inductive served {R : Type} `{ZR : ZlibReader R}
  : R -> list byte -> list (list byte) -> R -> list byte -> Prop :=
| served_nil (r : R) (src : list byte) : served r src [] r src
| served_cons (r : R) (src field : list byte) (fields : list (list byte))
    (r1 : R) (src1 : list byte) (r' : R) (src' : list byte) :
    zRead r src (length field) = (r1, src1, field, None) ->
    served r1 src1 fields r' src' ->
    served r src (field :: fields) r' src'.

Section Declared.

Context {R : Type} `{ZR : ZlibReader R}.

(** The name length and the value length the pair at hand declares: what
    the two reads into [chunk] decode to, whatever the budget. *)
Definition declared_lengths (version : Z) (s : LoopState R) : Z * Z :=
  let '(r1, src1, got1, _) := zRead (ls_r s) (ls_src s) (length (ls_chunk s)) in
  let chunk1 := fill (ls_chunk s) got1 in
  let nameLength := dechunk version chunk1 in
  let '(r2, src2, _, _) := zRead r1 src1 (length (make nameLength)) in
  let '(_, _, got3, _) := zRead r2 src2 (length chunk1) in
  (nameLength, dechunk version (fill chunk1 got3)).

(** The lengths the next [k] pairs declare, in the order they are read. *)
Fixpoint declared (version : Z) (k : nat) (s : LoopState R) : list Z :=
  match k with
  | O => []
  | S k' =>
      let '(nameLength, valueLength) := declared_lengths version s in
      nameLength :: valueLength :: declared version k' (read_pair version s).1
  end.

End Declared.

(** ** Several values under one name *)

(** [bytes.Join(segments, []byte{sep})]: the segments with one [sep]
    between neighbours. *)
Fixpoint bytes_Join (segments : list (list byte)) (sep : byte) : list byte :=
  match segments with
  | [] => []
  | [seg] => seg
  | seg :: rest => seg ++ sep :: bytes_Join rest sep
  end.

(** ** Successive calls of [Compress] *)

Section CompressAll.

Context {W : Type} `{ZW : ZlibWriter W} `{K : Constants}.

Fixpoint compress_all (c : Compressor W) (inputs : list (list byte))
  : list (Result (list byte)) :=
  match inputs with
  | [] => []
  | data :: rest => let '(c', out) := Compress c data in out :: compress_all c' rest
  end.

End CompressAll.

(** ** Requests

    The functions of the request file that stand on their own. The fields
    of [Request] are those these functions read or write; the others
    ([Form], [PostForm], [Trailer], ...) are left as they are by all of
    them. *)
Module Requests.

(** What a [*multipart.Form] field holds: nil, the sentinel
    [multipartByReader] of the package, or a form parsed from a body. *)
Inductive FormRef (Form : Type) : Type :=
| nilForm
| multipartByReader
| parsedForm (f : Form).

Arguments nilForm {Form}.
Arguments multipartByReader {Form}.
Arguments parsedForm {Form} f.

(** The [io.Reader] handed to [NewRequest]: nil, one of the three in-memory
    readers the function knows by type (with their unread content), a value
    that is also an [io.ReadCloser], or another reader. *)
Inductive BodyArg (RC RD : Type) : Type :=
| NoBody
| BytesBuffer (unread : list byte)
| BytesReader (unread : list byte)
| StringsReader (unread : string)
| AReadCloser (rc : RC)
| AReader (rd : RD).

Arguments NoBody {RC RD}.
Arguments BytesBuffer {RC RD} unread.
Arguments BytesReader {RC RD} unread.
Arguments StringsReader {RC RD} unread.
Arguments AReadCloser {RC RD} rc.
Arguments AReader {RC RD} rd.

(** An [io.ReadCloser]: a value that closes by itself, or a reader wrapped
    by [ioutil.NopCloser]. *)
Inductive ReadCloser (RC RD : Type) : Type :=
| OwnCloser (rc : RC)
| NopCloser (body : BodyArg RC RD).

Arguments OwnCloser {RC RD} rc.
Arguments NopCloser {RC RD} body.

Record Request (URL RC RD Form : Type) : Type := mkRequest {
  r_Method : string;
  r_URL : option URL;
  r_Proto : string;
  r_ProtoMajor : Z;
  r_ProtoMinor : Z;
  r_Header : Header;
  r_Body : option (ReadCloser RC RD);
  r_ContentLength : Z;
  r_Host : string;
  r_MultipartForm : FormRef Form
}.

Arguments mkRequest {URL RC RD Form}.
Arguments r_Method {URL RC RD Form} r.
Arguments r_URL {URL RC RD Form} r.
Arguments r_Proto {URL RC RD Form} r.
Arguments r_ProtoMajor {URL RC RD Form} r.
Arguments r_ProtoMinor {URL RC RD Form} r.
Arguments r_Header {URL RC RD Form} r.
Arguments r_Body {URL RC RD Form} r.
Arguments r_ContentLength {URL RC RD Form} r.
Arguments r_Host {URL RC RD Form} r.
Arguments r_MultipartForm {URL RC RD Form} r.

(** The functions and values from outside the file that the modelled
    functions use: [url.Parse] and the [Host] field of its result,
    [Header.Get], [mime.ParseMediaType], [multipart.NewReader], and the two
    errors [ErrNotMultipart] and [ErrMissingBoundary]. *)
Class Library (URL RC RD MR : Type) : Type := {
  url_Parse : string -> option URL * option error;
  url_Host : URL -> string;
  Header_Get : Header -> string -> string;
  mime_ParseMediaType : string -> string * gmap string string * option error;
  multipart_NewReader : option (ReadCloser RC RD) -> string -> MR;
  ErrNotMultipart : error;
  ErrMissingBoundary : error
}.

Section Functions.

Context {URL RC RD MR Form : Type} `{L : Library URL RC RD MR}.

Local Abbreviation Req := (Request URL RC RD Form).

(** [func (r *Request) ProtoAtLeast(major, minor int) bool] *)
Definition ProtoAtLeast (r : Req) (major minor : Z) : bool :=
  (r_ProtoMajor r >? major)
  || ((r_ProtoMajor r =? major) && (r_ProtoMinor r >=? minor)).

(** [func (r *Request) multipartReader()], returning a multipart reader or
    an error. *)
Definition multipartReader (r : Req) : Result MR :=
  let v := Header_Get (r_Header r) "Content-Type" in
  if String.eqb v "" then Err ErrNotMultipart
  else
    let '(d, params, err) := mime_ParseMediaType v in
    if match err with Some _ => true | None => false end
       || negb (String.eqb d "multipart/form-data")
    then Err ErrNotMultipart
    else
      match params !! "boundary" with
      | None => Err ErrMissingBoundary
      | Some boundary => Ok (multipart_NewReader (r_Body r) boundary)
      end.

(** [func (r *Request) MultipartReader()], returning a multipart reader or
    an error. The model returns the request after the call as well. *)
Definition MultipartReader (r : Req) : Req * Result MR :=
  match r_MultipartForm r with
  | multipartByReader => (r, Err (errorString "spdy: MultipartReader called twice"))
  | parsedForm _ =>
      (r, Err (errorString "spdy: multipart handled by ParseMultipartForm"))
  | nilForm =>
      let r' := mkRequest (r_Method r) (r_URL r) (r_Proto r) (r_ProtoMajor r)
                          (r_ProtoMinor r) (r_Header r) (r_Body r) (r_ContentLength r)
                          (r_Host r) multipartByReader in
      (r', multipartReader r')
  end.

(** [func NewRequest(method, urlStr string, body io.Reader)], returning a
    request or an error. *)
Definition NewRequest (method urlStr : string) (body : BodyArg RC RD) : Result Req :=
  match url_Parse urlStr with
  | (_, Some err) => Err err
  | (None, None) => Panicked NilPointerDereference
  | (Some u, None) =>
      let rc : option (ReadCloser RC RD) :=
        match body with
        | AReadCloser rc => Some (OwnCloser rc)
        | NoBody => None
        | _ => Some (NopCloser body)
        end in
      let contentLength : Z :=
        match body with
        | BytesBuffer unread => Z.of_nat (length unread)
        | BytesReader unread => Z.of_nat (length unread)
        | StringsReader unread => Z.of_nat (String.length unread)
        | _ => 0
        end in
      Ok (mkRequest method (Some u) "HTTP/1.1" 1 1 ∅ rc contentLength (url_Host u) nilForm)
  end.

End Functions.

(** A library for running the functions: URLs are their own text, the
    media type of a header value is the value itself with the parameter
    [boundary=x], and a multipart reader is its boundary. *)
#[export] Instance sample_library : Library string unit unit string := {
  url_Parse s := if String.eqb s "" then (None, Some (errorString "empty url")) else (Some s, None);
  url_Host u := u;
  Header_Get h key := match h !! key with Some (v :: _) => v | _ => "" end;
  mime_ParseMediaType v := (v, {["boundary" := "x"]}, None);
  multipart_NewReader body boundary := boundary;
  ErrNotMultipart := errorString "request Content-Type isn't multipart/form-data";
  ErrMissingBoundary := errorString "no multipart boundary param in Content-Type"
}.

End Requests.

(** * Properties *)

(** ** Wire codec *)

Lemma byte_to_Z_range (b : byte) : 0 <= byte_to_Z b < 256.
Proof.
  unfold byte_to_Z. pose proof (Byte.to_N_bounded b) as Hb. lia.
Qed.

Lemma byte_to_of_Z (z : Z) : byte_to_Z (byte_of_Z z) = z mod 256.
Proof.
  unfold byte_to_Z, byte_of_Z.
  pose proof (Z.mod_pos_bound z 256 ltac:(lia)) as Hm.
  destruct (Byte.of_N (Z.to_N (z mod 256))) as [b|] eqn:Hof.
  - apply Byte.to_of_N in Hof. rewrite Hof. lia.
  - apply Byte.of_N_None_iff in Hof. lia.
Qed.

Lemma lor_shiftl_byte (a x : Z) : 0 <= x < 256 -> Z.lor (Z.shiftl a 8) x = a * 256 + x.
Proof.
  intros Hx.
  assert (Hland : Z.land (Z.shiftl a 8) x = 0).
  { apply Z.bits_inj'. intros n Hn. rewrite Z.land_spec, Z.bits_0.
    destruct (Z.lt_ge_cases n 8) as [Hlt|Hge].
    - rewrite Z.shiftl_spec_low by lia. reflexivity.
    - destruct (Z.eq_dec x 0) as [->|Hx0].
      + rewrite Z.bits_0. apply andb_false_r.
      + rewrite (Z.bits_above_log2 x n); [apply andb_false_r | lia |].
        apply Z.log2_lt_pow2; [lia|].
        apply Z.lt_le_trans with (2 ^ 8); [simpl; lia|].
        apply Z.pow_le_mono_r; lia. }
  rewrite <- Z.lxor_lor by exact Hland.
  rewrite <- Z.add_nocarry_lxor by exact Hland.
  rewrite Z.shiftl_mul_pow2 by lia. reflexivity.
Qed.

Lemma be_value_snoc (l : list byte) (x : byte) :
  be_value (l ++ [x]) = be_value l * 256 + byte_to_Z x.
Proof.
  unfold be_value. rewrite fold_left_app. simpl.
  apply lor_shiftl_byte, byte_to_Z_range.
Qed.

Lemma be_bytes_length (w : nat) (n : Z) : length (be_bytes w n) = w.
Proof.
  revert n. induction w as [|w IH]; intros n; simpl; [reflexivity|].
  rewrite length_app, IH. simpl. lia.
Qed.

Lemma be_value_bytes (w : nat) (n : Z) :
  0 <= n < 2 ^ (8 * Z.of_nat w) -> be_value (be_bytes w n) = n.
Proof.
  revert n. induction w as [|w IH]; intros n Hn.
  - simpl in *. unfold be_value. simpl. lia.
  - simpl be_bytes. rewrite be_value_snoc, byte_to_of_Z.
    rewrite Z.shiftr_div_pow2 by lia.
    replace (8 * Z.of_nat (S w)) with (8 + 8 * Z.of_nat w) in Hn by lia.
    rewrite Z.pow_add_r in Hn by lia.
    rewrite IH.
    + change (2 ^ 8) with 256. pose proof (Z.div_mod n 256 ltac:(lia)). lia.
    + change (2 ^ 8) with 256 in *. split.
      * apply Z.div_pos; lia.
      * apply Z.div_lt_upper_bound; lia.
Qed.

Lemma be_value_range (b : list byte) : 0 <= be_value b < 2 ^ (8 * Z.of_nat (length b)).
Proof.
  induction b as [|x b IH] using rev_ind.
  - unfold be_value. simpl. lia.
  - rewrite be_value_snoc, length_app. simpl length.
    replace (8 * Z.of_nat (length b + 1)) with (8 * Z.of_nat (length b) + 8) by lia.
    rewrite Z.pow_add_r by lia. change (2 ^ 8) with 256.
    pose proof (byte_to_Z_range x). nia.
Qed.

(** ** The NOOP frame *)

Module NoopProperties.
Import Frames.

Lemma ReadExactly_enough (data rest : list byte) (n : nat) :
  length data = n -> ReadExactly (data ++ rest) n = (rest, data, None).
Proof.
  intros <-. unfold ReadExactly.
  destruct (Nat.leb_spec (length data) (length (data ++ rest))) as [_|Hlt].
  - by rewrite drop_app_length, take_app_length.
  - rewrite length_app in Hlt. lia.
Qed.

(** C8. On a source that starts with the eight bytes of a frame whose
    common header passes the validation of a NOOP frame, [ReadFrom] reports
    8 bytes consumed; it returns no error when the declared 24-bit length
    (bytes 5 to 7, big-endian) is zero, and [IncorrectDataLength(length, 0)]
    when it is not. *)
Theorem ReadFrom_checks_length
    (frame : NoopFrame) (b0 b1 b2 b3 b4 b5 b6 b7 : byte) (rest : list byte) :
  controlFrameCommonProcessing [b0; b1; b2; b3; b4] NOOP x00 = None ->
  let declared := byte_to_Z b5 * 65536 + byte_to_Z b6 * 256 + byte_to_Z b7 in
  ReadFrom frame ([b0; b1; b2; b3; b4; b5; b6; b7] ++ rest)
  = (rest, 8, if declared =? 0 then None else Some (IncorrectDataLength declared 0)).
Proof.
  intros Hcommon declared. unfold ReadFrom.
  rewrite (ReadExactly_enough [b0; b1; b2; b3; b4; b5; b6; b7] rest 8 eq_refl).
  change (slice [b0; b1; b2; b3; b4; b5; b6; b7] 0 5) with [b0; b1; b2; b3; b4].
  rewrite Hcommon.
  change (slice [b0; b1; b2; b3; b4; b5; b6; b7] 5 8) with [b5; b6; b7].
  assert (Hlen : BytesToUint24 [b5; b6; b7] = declared).
  { unfold BytesToUint24. change (take 3 [b5; b6; b7]) with ((([] ++ [b5]) ++ [b6]) ++ [b7]).
    rewrite !be_value_snoc. unfold be_value, declared. simpl. lia. }
  rewrite Hlen. destruct (declared =? 0); reflexivity.
Qed.

Lemma ReadFrom_checks_length_witness :
  ReadFrom mkNoopFrame ([x80; x02; x00; x05; x00; x00; x01; x02] ++ [x33])
  = ([x33], 8, Some (IncorrectDataLength 258 0)).
Proof.
  apply (ReadFrom_checks_length mkNoopFrame x80 x02 x00 x05 x00 x00 x01 x02 [x33]).
  reflexivity.
Defined.

(** C9. Scenario S1: on a source that starts with [80 02 00 05 00 00 00 00],
    [ReadFrom] returns no error, reports 8 bytes consumed and leaves the
    source after those eight bytes. *)
Theorem ReadFrom_noop_bytes (frame : NoopFrame) (rest : list byte) :
  ReadFrom frame (noop_bytes ++ rest) = (rest, 8, None).
Proof.
  unfold ReadFrom. rewrite (ReadExactly_enough noop_bytes rest 8 eq_refl). reflexivity.
Qed.

(** C10. [WriteTo] returns [(0, nil)] and leaves every sink as it found
    it: serialising a NOOP frame emits no byte. *)
Theorem WriteTo_writes_nothing (frame : NoopFrame) (writer : list byte) :
  WriteTo frame writer = (writer, 0, None).
Proof. destruct frame. reflexivity. Qed.

(** Counterexample to C2. The bytes [WriteTo] produces for the NOOP frame
    do not parse back, and the frame parsed from the eight bytes of S1 is
    not re-serialised to those bytes. *)
Lemma noop_round_trip_fails :
  ~ (forall frame : NoopFrame,
       (exists rest, ReadFrom frame (WriteTo frame []).1.1 = (rest, 8, None))
       /\ (ReadFrom frame noop_bytes = ([], 8, None) ->
           (WriteTo frame []).1.1 = noop_bytes)).
Proof.
  intros Hclaim. destruct (Hclaim mkNoopFrame) as [[rest Hparse] _].
  vm_compute in Hparse. discriminate Hparse.
Qed.

(** C2, amended. [WriteTo] emits no byte. Hence parsing what it wrote
    fails: [ReadFrom] returns the error of [ReadExactly] and reports 0
    bytes consumed. And the frame parsed without error from the eight
    bytes of S1 is re-serialised to the empty byte string. *)
Theorem noop_serialisation_is_empty (frame : NoopFrame) :
  ReadFrom frame (WriteTo frame []).1.1 = ([], 0, Some ShortRead)
  /\ ReadFrom frame noop_bytes = ([], 8, None)
  /\ (WriteTo frame []).1.1 = [].
Proof. destruct frame. repeat split. Qed.

End NoopProperties.

(** ** Version dispatch *)

Ltac version_cases version :=
  destruct version as [|[[?|?|]|[?|?|]|]|?]; try reflexivity; try congruence.

Section VersionDispatch.

Context {R W : Type} `{ZR : ZlibReader R} `{ZW : ZlibWriter W} `{K : Constants}.

Lemma chunk_size_unsupported (version : Z) :
  version <> 2 -> version <> 3 -> chunk_size version = None.
Proof. intros H2 H3. version_cases version. Qed.

Lemma open_reader_unsupported (version : Z) (src : list byte) :
  version <> 2 -> version <> 3 ->
  open_reader version (None : option R) src = (src, None, Some versionError).
Proof. intros H2 H3. unfold open_reader. version_cases version. Qed.

Lemma open_writer_unsupported (version : Z) (w : option W) :
  version <> 2 -> version <> 3 -> open_writer version w = (w, Some versionError).
Proof. intros H2 H3. unfold open_writer. version_cases version. Qed.

(** A decompressor of an unsupported version never opens a reader: every
    call returns [versionError] and leaves [d.out] nil. *)
Lemma Decompress_unsupported (version : Z) (src : option (list byte)) (data : list byte) :
  version <> 2 -> version <> 3 ->
  Decompress (mkDecompressor src (None : option R) version) data
  = (mkDecompressor (Some data) None version, [], Err versionError).
Proof.
  intros H2 H3. unfold Decompress.
  assert (Hload : load_input (mkDecompressor src (None : option R) version) data
                  = mkDecompressor (Some data) None version).
  { unfold load_input. destruct src; reflexivity. }
  rewrite Hload. cbn [d_in d_out d_version].
  rewrite open_reader_unsupported by assumption. reflexivity.
Qed.

Lemma decompress_all_unsupported (version : Z) (src : option (list byte)) (datas : list (list byte)) :
  version <> 2 -> version <> 3 ->
  decompress_all (mkDecompressor src (None : option R) version) datas
  = map (fun _ => Err versionError) datas.
Proof.
  intros H2 H3. revert src. induction datas as [|data datas IH]; intros src; simpl.
  - reflexivity.
  - rewrite Decompress_unsupported by assumption. f_equal. apply IH.
Qed.

(** C6, at the failing input. For a version other than 2 and 3, the first
    [Compress] returns [versionError] but leaves [c.buf] set and [c.w] nil,
    so that the second [Compress] skips the version switch and panics on
    the call through the nil writer. [Decompress] returns [versionError] at
    every call. *)
Theorem Compress_unsupported_second_call_panics
    (version : Z) (data1 data2 : list byte) (datas : list (list byte)) :
  version <> 2 -> version <> 3 ->
  let first := Compress (NewCompressor version : Compressor W) data1 in
  first = (mkCompressor (Some []) None version, Err versionError)
  /\ (Compress first.1 data2).2 = Panicked NilPointerDereference
  /\ decompress_all (NewDecompressor version : Decompressor R) datas
     = map (fun _ => Err versionError) datas.
Proof.
  intros H2 H3 first.
  assert (Hfirst : first = (mkCompressor (Some []) None version, Err versionError)).
  { unfold first, Compress, NewCompressor. simpl.
    rewrite open_writer_unsupported by assumption. reflexivity. }
  split; [exact Hfirst|]. split.
  - rewrite Hfirst. reflexivity.
  - apply decompress_all_unsupported; assumption.
Qed.

End VersionDispatch.

(** ** The source buffer of the decompressor *)

Section SourceBuffer.

Context {R : Type} `{ZR : ZlibReader R} `{K : Constants}.

Lemma load_input_replaces (d : Decompressor R) (data : list byte) :
  load_input d data = mkDecompressor (Some data) (d_out d) (d_version d).
Proof. unfold load_input. destruct (d_in d); reflexivity. Qed.

(** C5, amended. Each call to [Decompress] replaces the content of the
    source buffer by its input: the reader works on [data] alone, and the
    result of the call does not depend on what earlier calls left unread
    in the buffer. *)
Theorem Decompress_replaces_source
    (unread unread' : option (list byte)) (out : option R) (version : Z) (data : list byte) :
  d_in (load_input (mkDecompressor unread out version) data) = Some data
  /\ Decompress (mkDecompressor unread out version) data
     = Decompress (mkDecompressor unread' out version) data.
Proof.
  split.
  - rewrite load_input_replaces. reflexivity.
  - unfold Decompress. rewrite !load_input_replaces. reflexivity.
Qed.

(** C3, at the failing input. When the read of the pair count reports an
    error, [Decompress] does not return it: it panics with it. *)
Theorem Decompress_panics_on_count_read_error
    (d : Decompressor R) (data src src' got : list byte) (r r' : R) (width : nat) (e : error) :
  open_reader (d_version d) (d_out d) data = (src, Some r, None) ->
  chunk_size (d_version d) = Some width ->
  zRead r src width = (r', src', got, Some e) ->
  Decompress d data
  = (mkDecompressor (Some src') (Some r') (d_version d), [Z.of_nat width],
     Panicked (PanicError e)).
Proof.
  intros Hopen Hwidth Hread. unfold Decompress.
  rewrite load_input_replaces. cbn [d_in d_out d_version default from_option id].
  rewrite Hopen, Hwidth.
  assert (Hlen : length (make (Z.of_nat width)) = width).
  { unfold make. rewrite length_replicate. lia. }
  rewrite Hlen, Hread. reflexivity.
Qed.

(** The reads of a name and of a value length panic in the same way. *)
Lemma read_pair_panics_on_name_read_error
    (version : Z) (s : LoopState R) (r1 r2 : R) (src1 src2 got1 got2 : list byte) (e : error) :
  zRead (ls_r s) (ls_src s) (length (ls_chunk s)) = (r1, src1, got1, None) ->
  dechunk version (fill (ls_chunk s) got1) <= ls_bounds s ->
  zRead r1 src1 (length (make (dechunk version (fill (ls_chunk s) got1))))
  = (r2, src2, got2, Some e) ->
  (read_pair version s).2 = Panicked (PanicError e).
Proof.
  intros Hlen Hle Hname. unfold read_pair. rewrite Hlen.
  destruct (Z.gtb_spec (dechunk version (fill (ls_chunk s) got1)) (ls_bounds s)); [lia|].
  rewrite Hname. reflexivity.
Qed.

End SourceBuffer.

(** ** The allocation budget of [Decompress] *)

Lemma int_exact (z : Z) : - 2 ^ 63 <= z < 2 ^ 63 -> int z = z.
Proof.
  intros Hz. unfold int.
  rewrite Z.mod_small; lia.
Qed.

Lemma dechunk_range (version : Z) (b : list byte) : 0 <= dechunk version b < 2 ^ 32.
Proof.
  assert (H16 : 0 <= bytesToUint16 b < 2 ^ 32).
  { unfold bytesToUint16. pose proof (be_value_range (take 2 b)) as Hr.
    pose proof (length_take b 2) as Hl.
    assert (2 ^ (8 * Z.of_nat (length (take 2 b))) <= 2 ^ 16)
      by (apply Z.pow_le_mono_r; lia).
    lia. }
  assert (H32 : 0 <= bytesToUint32 b < 2 ^ 32).
  { unfold bytesToUint32. pose proof (be_value_range (take 4 b)) as Hr.
    pose proof (length_take b 4) as Hl.
    assert (2 ^ (8 * Z.of_nat (length (take 4 b))) <= 2 ^ 32)
      by (apply Z.pow_le_mono_r; lia).
    lia. }
  unfold dechunk.
  destruct version as [|[[?|?|]|[?|?|]|]|?]; rewrite int_exact; lia.
Qed.

Lemma total_app (l1 l2 : list Z) : total (l1 ++ l2) = total l1 + total l2.
Proof. unfold total. induction l1 as [|x l1 IH]; simpl; lia. Qed.

Lemma within_budget_total (budget : Z) (sizes : list Z) :
  within_budget budget sizes -> 0 <= total sizes /\ (sizes <> [] -> total sizes <= budget).
Proof.
  revert budget. induction sizes as [|n rest IH]; intros budget Hw; simpl in *.
  - split; [lia | congruence].
  - destruct Hw as [Hn Hrest]. destruct (IH _ Hrest) as [H0 Hle].
    split; [lia|]. intros _. destruct rest as [|m rest']; [simpl; lia|].
    specialize (Hle ltac:(congruence)). lia.
Qed.

Lemma within_budget_snoc (budget : Z) (sizes : list Z) (n : Z) :
  within_budget budget sizes -> 0 <= n <= budget - total sizes ->
  within_budget budget (sizes ++ [n]).
Proof.
  revert budget. induction sizes as [|m rest IH]; intros budget Hw Hn; simpl in *.
  - split; [lia | exact I].
  - destruct Hw as [Hm Hrest]. split; [exact Hm|]. apply IH; [exact Hrest | lia].
Qed.

Section Budget.

Context {R : Type} `{ZR : ZlibReader R} `{K : Constants}.

Lemma budget_kept_spend (budget : Z) (s s' : LoopState R) (n : Z) :
  budget < 2 ^ 63 ->
  budget_kept budget s ->
  0 <= n -> ~ n > ls_bounds s ->
  ls_allocs s' = ls_allocs s ++ [n] ->
  ls_bounds s' = int (ls_bounds s - n) ->
  budget_kept budget s' /\ ls_bounds s' = ls_bounds s - n.
Proof.
  intros Hmax (width & sizes & Hallocs & Hw & Hb) Hn Hle Hallocs' Hb'.
  pose proof (within_budget_total _ _ Hw) as [Htot _].
  assert (Hexact : int (ls_bounds s - n) = ls_bounds s - n) by (apply int_exact; lia).
  split; [|lia].
  exists width, (sizes ++ [n]). rewrite Hallocs', Hallocs. split; [reflexivity|].
  split.
  - apply within_budget_snoc; [exact Hw | lia].
  - rewrite total_app. unfold total at 2. simpl. lia.
Qed.

Lemma budget_kept_same (budget : Z) (s s' : LoopState R) :
  budget_kept budget s ->
  ls_allocs s' = ls_allocs s -> ls_bounds s' = ls_bounds s ->
  budget_kept budget s'.
Proof.
  intros (width & sizes & Hallocs & Hw & Hb) Ha Hbo.
  exists width, sizes. rewrite Ha, Hbo. auto.
Qed.

(** One iteration keeps the budget, however it ends. *)
Lemma read_pair_budget (budget version : Z) (s : LoopState R) :
  budget < 2 ^ 63 -> budget_kept budget s -> budget_kept budget (read_pair version s).1.
Proof.
  intros Hmax Hs. unfold read_pair.
  destruct (zRead (ls_r s) (ls_src s) (length (ls_chunk s))) as [[[r1 src1] got1] [e1|]];
    [eapply budget_kept_same; [exact Hs | reflexivity..]|].
  set (nameLength := dechunk version (fill (ls_chunk s) got1)).
  pose proof (dechunk_range version (fill (ls_chunk s) got1)) as Hnl. fold nameLength in Hnl.
  destruct (Z.gtb_spec nameLength (ls_bounds s)) as [Hgt|Hle];
    [eapply budget_kept_same; [exact Hs | reflexivity..]|].
  destruct (zRead r1 src1 (length (make nameLength))) as [[[r2 src2] got2] e2].
  set (s2 := mkLoop r2 src2 (fill (ls_chunk s) got1) (ls_headers s)
                    (int (ls_bounds s - nameLength)) (ls_allocs s ++ [nameLength])).
  destruct (budget_kept_spend budget s s2 nameLength Hmax Hs ltac:(lia) ltac:(lia)
              eq_refl eq_refl) as [Hs2 Hb2].
  destruct e2 as [e2|]; [exact Hs2|].
  destruct (zRead r2 src2 (length (fill (ls_chunk s) got1))) as [[[r3 src3] got3] e3].
  destruct e3 as [e3|]; [eapply budget_kept_same; [exact Hs2 | reflexivity..]|].
  set (valueLength := dechunk version (fill (fill (ls_chunk s) got1) got3)).
  pose proof (dechunk_range version (fill (fill (ls_chunk s) got1) got3)) as Hvl.
  fold valueLength in Hvl.
  destruct (Z.gtb_spec valueLength (int (ls_bounds s - nameLength))) as [Hgt|Hle'];
    [eapply budget_kept_same; [exact Hs2 | reflexivity..]|].
  destruct (zRead r3 src3 (length (make valueLength))) as [[[r4 src4] got4] e4].
  assert (Hs4 : forall h, budget_kept budget
            (mkLoop r4 src4 (fill (fill (ls_chunk s) got1) got3) h
                    (int (int (ls_bounds s - nameLength) - valueLength))
                    ((ls_allocs s ++ [nameLength]) ++ [valueLength]))).
  { intros h. eapply (budget_kept_spend budget s2 _ valueLength Hmax Hs2);
      [lia | exact Hle' | reflexivity | reflexivity]. }
  destruct e4 as [e4|]; apply Hs4.
Qed.

Lemma read_pairs_budget (budget version : Z) (n : nat) (s : LoopState R) :
  budget < 2 ^ 63 -> budget_kept budget s -> budget_kept budget (read_pairs version n s).1.
Proof.
  intros Hmax. revert s. induction n as [|n IH]; intros s Hs; simpl; [exact Hs|].
  pose proof (read_pair_budget budget version s Hmax Hs) as Hstep.
  destruct (read_pair version s) as [s' [[]|e|p]]; simpl in *; auto.
Qed.

Lemma read_pairs_add (version : Z) (k m : nat) (s0 s : LoopState R) :
  read_pairs version k s0 = (s, Ok tt) ->
  read_pairs version (k + m) s0 = read_pairs version m s.
Proof.
  revert s0. induction k as [|k IH]; intros s0 Hk; simpl in *.
  - by inversion Hk.
  - destruct (read_pair version s0) as [s' [[]|e|p]]; try discriminate. by apply IH.
Qed.

(** A call that opens its reader and reads the pair count runs the loop
    from a state whose budget is [MAX_FRAME_SIZE - 12]. *)
Lemma Decompress_loop
    (d : Decompressor R) (data src src0 got0 : list byte) (r r0 : R) (width : nat) :
  open_reader (d_version d) (d_out d) data = (src, Some r, None) ->
  chunk_size (d_version d) = Some width ->
  zRead r src width = (r0, src0, got0, None) ->
  let chunk := fill (make (Z.of_nat width)) got0 in
  Decompress d data
  = let '(s, res) :=
      read_pairs (d_version d) (Z.to_nat (dechunk (d_version d) chunk))
                 (mkLoop r0 src0 chunk ∅ (MAX_FRAME_SIZE - 12) [Z.of_nat width]) in
    (mkDecompressor (Some (ls_src s)) (Some (ls_r s)) (d_version d), ls_allocs s,
     match res with
     | Ok _ => Ok (ls_headers s)
     | Err e => Err e
     | Panicked p => Panicked p
     end).
Proof.
  intros Hopen Hwidth Hread chunk. unfold Decompress.
  rewrite load_input_replaces. cbn [d_in d_out d_version default from_option id].
  rewrite Hopen, Hwidth.
  assert (Hlen : length (make (Z.of_nat width)) = width).
  { unfold make. rewrite length_replicate. lia. }
  rewrite Hlen, Hread. reflexivity.
Qed.




End Budget.

(** ** Parsing a header block *)

Lemma fill_full (p got : list byte) : length got = length p -> fill p got = got.
Proof.
  intros Hlen. unfold fill. rewrite drop_ge by lia.
  rewrite app_nil_r. apply take_ge. lia.
Qed.

Lemma make_length (n : nat) : length (make (Z.of_nat n)) = n.
Proof. unfold make. rewrite length_replicate. lia. Qed.

Lemma field_width_chunk_size (version : Z) :
  version = 2 \/ version = 3 -> chunk_size version = Some (field_width version).
Proof. intros [-> | ->]; reflexivity. Qed.

Lemma dechunk_be_bytes (version n : Z) :
  version = 2 \/ version = 3 ->
  0 <= n < 2 ^ (8 * Z.of_nat (field_width version)) ->
  dechunk version (be_bytes (field_width version) n) = n.
Proof.
  intros [-> | ->] Hn; unfold dechunk, bytesToUint16, bytesToUint32;
    change (field_width 2) with 2%nat in *; change (field_width 3) with 4%nat in *.
  - rewrite take_ge by (rewrite be_bytes_length; lia).
    rewrite be_value_bytes by exact Hn. apply int_exact.
    change (8 * Z.of_nat 2) with 16 in Hn. lia.
  - rewrite take_ge by (rewrite be_bytes_length; lia).
    rewrite be_value_bytes by exact Hn. apply int_exact.
    change (8 * Z.of_nat 4) with 32 in Hn. lia.
Qed.

(** *** What [Header.Add] builds *)

Lemma Header_Add_lookup (h : Header) (name value key : string) :
  Header_Add h name value !! key
  = if decide (name = key) then Some (default [] (h !! key) ++ [value]) else h !! key.
Proof.
  unfold Header_Add. rewrite lookup_insert. destruct (decide (name = key)) as [->|]; reflexivity.
Qed.

Lemma add_segments_lookup (h : Header) (name key : string) (segments : list string) :
  fold_left (fun h value => Header_Add h name value) segments h !! key
  = if decide (name = key)
    then match segments with
         | [] => h !! key
         | _ => Some (default [] (h !! key) ++ segments)
         end
    else h !! key.
Proof.
  revert h. induction segments as [|v segments IH]; intros h; simpl.
  - destruct (decide (name = key)); reflexivity.
  - rewrite IH, Header_Add_lookup. destruct (decide (name = key)) as [->|]; [|reflexivity].
    simpl. destruct segments as [|v' segments'].
    + reflexivity.
    + by rewrite <- app_assoc.
Qed.

Lemma bytes_Split_nonempty (s : list byte) (sep : byte) : bytes_Split s sep <> [].
Proof.
  destruct s as [|b s]; simpl; [congruence|].
  destruct (Byte.eqb b sep); [congruence|].
  destruct (bytes_Split s sep); congruence.
Qed.

Lemma add_values_lookup (h : Header) (name values : list byte) (key : string) :
  add_values h name values !! key
  = if decide (string_of_list_byte name = key)
    then Some (default [] (h !! key) ++ map string_of_list_byte (bytes_Split values x00))
    else h !! key.
Proof.
  unfold add_values.
  assert (Hmap : forall segments h0,
            fold_left (fun h value => Header_Add h (string_of_list_byte name)
                                                 (string_of_list_byte value)) segments h0
            = fold_left (fun h value => Header_Add h (string_of_list_byte name) value)
                        (map string_of_list_byte segments) h0).
  { induction segments as [|seg segments IH]; intros h0; simpl; [reflexivity | apply IH]. }
  rewrite Hmap, add_segments_lookup. destruct (decide _); [|reflexivity].
  pose proof (bytes_Split_nonempty values x00) as Hne.
  destruct (bytes_Split values x00); [congruence | reflexivity].
Qed.

(** ** A header block of one pair, read field by field *)

Lemma fill_short (n : nat) (got : list byte) :
  (length got <= n)%nat ->
  fill (make (Z.of_nat n)) got = got ++ replicate (n - length got) x00.
Proof.
  intros Hle. unfold fill, make. rewrite Nat2Z.id, length_replicate, drop_replicate.
  apply take_ge. rewrite length_app, length_replicate. lia.
Qed.

Lemma bytes_Split_two_segments (s : list byte) (sep : byte) :
  In sep s -> exists a b rest, bytes_Split s sep = a :: b :: rest.
Proof.
  induction s as [|x s IH]; intros Hin; [destruct Hin|].
  cbn [bytes_Split]. destruct (Byte.eqb x sep) eqn:Heq.
  - pose proof (bytes_Split_nonempty s sep) as Hne.
    destruct (bytes_Split s sep) as [|b rest]; [congruence|]. by exists [], b, rest.
  - destruct Hin as [-> | Hin].
    + by rewrite (Byte.byte_dec_lb (eq_refl sep)) in Heq.
    + destruct (IH Hin) as (a & b & rest & ->). by exists (x :: a), b, rest.
Qed.

Lemma bytes_Split_whole (seg : list byte) (sep : byte) :
  ~ In sep seg -> bytes_Split seg sep = [seg].
Proof.
  induction seg as [|b seg IH]; intros Hnot; [reflexivity|].
  cbn [bytes_Split]. destruct (Byte.eqb b sep) eqn:Heq.
  - apply Byte.byte_dec_bl in Heq. subst. exfalso. apply Hnot. by left.
  - rewrite IH; [reflexivity|]. intros Hin. apply Hnot. by right.
Qed.

Section OnePair.

Context {R : Type} `{ZR : ZlibReader R} `{K : Constants}.

Variable version : Z.
Hypothesis version_supported : version = 2 \/ version = 3.

Local Abbreviation width := (field_width version).

(** One iteration whose first three reads are served the name length, the
    name and the value length, by the outcome of the read of the value. *)
Lemma read_pair_fields
    (s : LoopState R) (name : list byte) (valueLength : Z)
    (r3 r4 : R) (src3 src4 got : list byte) (err : option error) :
  length (ls_chunk s) = width ->
  zlen name < 2 ^ (8 * Z.of_nat width) ->
  0 <= valueLength < 2 ^ (8 * Z.of_nat width) ->
  zlen name + valueLength <= ls_bounds s < 2 ^ 63 ->
  served (ls_r s) (ls_src s)
         [be_bytes width (zlen name); name; be_bytes width valueLength] r3 src3 ->
  zRead r3 src3 (Z.to_nat valueLength) = (r4, src4, got, err) ->
  read_pair version s
  = (mkLoop r4 src4 (be_bytes width valueLength)
            (match err with
             | Some _ => ls_headers s
             | None => add_values (ls_headers s) name (fill (make valueLength) got)
             end)
            (ls_bounds s - zlen name - valueLength)
            ((ls_allocs s ++ [zlen name]) ++ [valueLength]),
     match err with
     | Some e => Err e
     | None => Ok tt
     end).
Proof.
  intros Hchunk Hname Hvalue Hbudget Hserved Hlast.
  assert (H0n : 0 <= zlen name) by (unfold zlen; lia).
  inversion Hserved as [|? ? ? ? r1 src1 ? ? Hr1 Hserved1]; subst.
  inversion Hserved1 as [|? ? ? ? r2 src2 ? ? Hr2 Hserved2]; subst.
  inversion Hserved2 as [|? ? ? ? r3' src3' ? ? Hr3 Hserved3]; subst.
  inversion Hserved3; subst.
  rewrite be_bytes_length in Hr1, Hr3.
  unfold read_pair. rewrite Hchunk, Hr1.
  rewrite fill_full by (rewrite be_bytes_length; lia).
  rewrite dechunk_be_bytes by (assumption || lia).
  destruct (Z.gtb_spec (zlen name) (ls_bounds s)); [lia|].
  assert (Hmake : length (make (zlen name)) = length name) by apply make_length.
  rewrite Hmake, Hr2, be_bytes_length, Hr3.
  rewrite fill_full by (rewrite !be_bytes_length; lia).
  rewrite fill_full by (rewrite Hmake; lia).
  rewrite dechunk_be_bytes by (assumption || lia).
  rewrite (int_exact (ls_bounds s - zlen name)) by lia.
  destruct (Z.gtb_spec valueLength (ls_bounds s - zlen name)); [lia|].
  rewrite (int_exact (ls_bounds s - zlen name - valueLength)) by lia.
  assert (Hmake' : length (make valueLength) = Z.to_nat valueLength).
  { unfold make. apply length_replicate. }
  rewrite Hmake', Hlast. destruct err; reflexivity.
Qed.

(** A call on a block of one pair whose count, name length, name and value
    length are served, by the outcome of the read of the value. *)
Lemma Decompress_one_pair
    (d : Decompressor R) (data src name : list byte) (valueLength : Z)
    (r r3 r4 : R) (src3 src4 got : list byte) (err : option error) :
  d_version d = version ->
  zlen name < 2 ^ (8 * Z.of_nat width) ->
  0 <= valueLength < 2 ^ (8 * Z.of_nat width) ->
  zlen name + valueLength <= MAX_FRAME_SIZE - 12 ->
  MAX_FRAME_SIZE - 12 < 2 ^ 63 ->
  open_reader version (d_out d) data = (src, Some r, None) ->
  served r src [be_bytes width 1; be_bytes width (zlen name); name;
                be_bytes width valueLength] r3 src3 ->
  zRead r3 src3 (Z.to_nat valueLength) = (r4, src4, got, err) ->
  Decompress d data
  = (mkDecompressor (Some src4) (Some r4) version,
     [Z.of_nat width; zlen name; valueLength],
     match err with
     | Some e => Err e
     | None => Ok (add_values ∅ name (fill (make valueLength) got))
     end).
Proof.
  intros Hversion Hname Hvalue Hbudget Hmax Hopen Hserved Hlast.
  revert Hversion.
  inversion Hserved as [|? ? ? ? r0 src0 ? ? Hr0 Hfields]; subst.
  intros Hversion.
  rewrite be_bytes_length in Hr0.
  assert (Hone : 0 <= 1 < 2 ^ (8 * Z.of_nat width)).
  { destruct version_supported as [-> | ->]; cbn; lia. }
  pose proof (Decompress_loop d data src src0 (be_bytes width 1) r r0 width) as Hloop.
  rewrite Hversion in Hloop.
  specialize (Hloop Hopen (field_width_chunk_size _ version_supported) Hr0).
  cbv zeta in Hloop.
  rewrite fill_full in Hloop by (rewrite be_bytes_length, make_length; lia).
  rewrite dechunk_be_bytes in Hloop by assumption.
  change (Z.to_nat 1) with 1%nat in Hloop. cbn [read_pairs] in Hloop.
  rewrite (read_pair_fields
             (mkLoop r0 src0 (be_bytes width 1) ∅ (MAX_FRAME_SIZE - 12) [Z.of_nat width])
             name valueLength r3 r4 src3 src4 got err) in Hloop;
    [| apply be_bytes_length | assumption | assumption | cbn [ls_bounds]; lia
     | exact Hfields | exact Hlast].
  rewrite Hloop. destruct err; reflexivity.
Qed.

(** C7, at the failing input. A block of one pair whose value holds no NUL;
    the reader serves the count, the name length, the name and the value
    length in full, and then serves the read of the value fewer bytes than
    it asks for, without error. [Decompress] does not look at the count of
    bytes read: it succeeds, and binds the name to the segments of the
    bytes delivered followed by the zero bytes the slice was made of. That
    Header is not the one the block encodes. *)
Theorem Decompress_accepts_short_value
    (d : Decompressor R) (data src name value : list byte)
    (r r3 r4 : R) (src3 src4 got : list byte) :
  d_version d = version ->
  zlen name < 2 ^ (8 * Z.of_nat width) ->
  zlen value < 2 ^ (8 * Z.of_nat width) ->
  zlen name + zlen value <= MAX_FRAME_SIZE - 12 ->
  MAX_FRAME_SIZE - 12 < 2 ^ 63 ->
  ~ In x00 value ->
  open_reader version (d_out d) data = (src, Some r, None) ->
  served r src [be_bytes width 1; be_bytes width (zlen name); name;
                be_bytes width (zlen value)] r3 src3 ->
  zRead r3 src3 (length value) = (r4, src4, got, None) ->
  (length got < length value)%nat ->
  exists h,
    Decompress d data
    = (mkDecompressor (Some src4) (Some r4) version,
       [Z.of_nat width; zlen name; zlen value], Ok h)
    /\ h !! string_of_list_byte name
       = Some (map string_of_list_byte
                   (bytes_Split (got ++ replicate (length value - length got) x00) x00))
    /\ ~ encodes [(name, value)] h.
Proof.
  intros Hversion Hname Hvalue Hbudget Hmax Hnul Hopen Hserved Hlast Hshort.
  assert (H0v : 0 <= zlen value) by (unfold zlen; lia).
  pose proof (Decompress_one_pair d data src name (zlen value) r r3 r4 src3 src4 got None
                Hversion Hname ltac:(lia) Hbudget Hmax Hopen Hserved) as Hrun.
  assert (Hto : Z.to_nat (zlen value) = length value) by (unfold zlen; apply Nat2Z.id).
  rewrite Hto in Hrun. specialize (Hrun Hlast).
  change (fill (make (zlen value)) got)
    with (fill (make (Z.of_nat (length value))) got) in Hrun.
  rewrite fill_short in Hrun by lia.
  eexists. split; [exact Hrun|].
  assert (Hlookup :
    add_values ∅ name (got ++ replicate (length value - length got) x00)
      !! string_of_list_byte name
    = Some (map string_of_list_byte
                (bytes_Split (got ++ replicate (length value - length got) x00) x00))).
  { rewrite add_values_lookup. destruct (decide _) as [_|Hne]; [|contradiction].
    by rewrite lookup_empty. }
  split; [exact Hlookup|].
  intros Hencodes. specialize (Hencodes (string_of_list_byte name)).
  rewrite Hlookup in Hencodes.
  unfold block_values in Hencodes. cbn [flat_map fst snd] in Hencodes.
  rewrite String.eqb_refl, app_nil_r, (bytes_Split_whole value x00 Hnul) in Hencodes.
  destruct (bytes_Split_two_segments
              (got ++ replicate (length value - length got) x00) x00)
    as (a & b & rest & Hsplit).
  { apply in_or_app. right.
    destruct (length value - length got)%nat as [|n] eqn:Hn; [lia|]. by left. }
  rewrite Hsplit in Hencodes. discriminate Hencodes.
Qed.

End OnePair.

(** C1, at the failing input. A block of one pair whose value is empty,
    compressed by the compressor and handed to the decompressor. The
    reader serves the count, the name length, the name and the value length;
    nothing of the block is left, and the read into the empty slice of the
    value, which asks the reader for more, reports an error. [Decompress]
    returns that error: the block does not come back as a Header. *)
Theorem exchange_fails_on_empty_value
    {R W : Type} `{ZR : ZlibReader R} `{ZW : ZlibWriter W} `{K : Constants}
    (version : Z) (c c' : Compressor W) (d : Decompressor R)
    (name out src : list byte) (r r3 r4 : R) (src3 src4 got : list byte) (e : error) :
  version = 2 \/ version = 3 ->
  d_version d = version ->
  zlen name < 2 ^ (8 * Z.of_nat (field_width version)) ->
  zlen name <= MAX_FRAME_SIZE - 12 ->
  MAX_FRAME_SIZE - 12 < 2 ^ 63 ->
  Compress c (wire_block version [(name, [])]) = (c', Ok out) ->
  open_reader version (d_out d) out = (src, Some r, None) ->
  served r src [be_bytes (field_width version) 1;
                be_bytes (field_width version) (zlen name); name;
                be_bytes (field_width version) 0] r3 src3 ->
  zRead r3 src3 0 = (r4, src4, got, Some e) ->
  exchange c d [wire_block version [(name, [])]] = [Err e]
  /\ forall h, encodes [(name, [])] h -> h !! string_of_list_byte name = Some [""%string].
Proof.
  intros Hversion Hdv Hname Hbudget Hmax Hcompress Hopen Hserved Hlast.
  split.
  - assert (Hzero : 0 <= 0 < 2 ^ (8 * Z.of_nat (field_width version))).
    { destruct Hversion as [-> | ->]; cbn; lia. }
    assert (Hsum : zlen name + 0 <= MAX_FRAME_SIZE - 12) by lia.
    pose proof (Decompress_one_pair version Hversion d out src name 0 r r3 r4 src3 src4 got
                  (Some e) Hdv Hname Hzero Hsum Hmax Hopen Hserved Hlast) as Hrun.
    cbn [exchange]. rewrite Hcompress, Hrun. reflexivity.
  - intros h Hencodes. rewrite (Hencodes (string_of_list_byte name)).
    unfold block_values. cbn [flat_map fst snd]. by rewrite String.eqb_refl.
Qed.

(** * Further properties of the compressor objects *)

Section Allocations.

Context {R : Type} `{ZR : ZlibReader R} `{K : Constants}.

(** ** Which read errors [Decompress] returns *)

(** X2. In a call that reaches the loop, after any number of complete
    iterations: an error of the read of a name length, and an error of the
    read of the bytes of a value, are returned as the error of
    [Decompress]; no Header comes with them. *)
Theorem Decompress_returns_read_errors
    (d : Decompressor R) (data src src0 got0 : list byte) (r r0 : R) (width : nat)
    (k : nat) (s : LoopState R) :
  MAX_FRAME_SIZE - 12 < 2 ^ 63 ->
  open_reader (d_version d) (d_out d) data = (src, Some r, None) ->
  chunk_size (d_version d) = Some width ->
  zRead r src width = (r0, src0, got0, None) ->
  let version := d_version d in
  let chunk := fill (make (Z.of_nat width)) got0 in
  let start := mkLoop r0 src0 chunk ∅ (MAX_FRAME_SIZE - 12) [Z.of_nat width] in
  (k < Z.to_nat (dechunk version chunk))%nat ->
  read_pairs version k start = (s, Ok tt) ->
  forall r1 src1 got1 e1,
    zRead (ls_r s) (ls_src s) (length (ls_chunk s)) = (r1, src1, got1, e1) ->
    let chunk1 := fill (ls_chunk s) got1 in
    let nameLength := dechunk version chunk1 in
    (forall e, e1 = Some e ->
       Decompress d data
       = (mkDecompressor (Some src1) (Some r1) version, ls_allocs s, Err e))
    /\ (e1 = None -> nameLength <= ls_bounds s ->
        forall r2 src2 got2 r3 src3 got3 r4 src4 got4 e,
          zRead r1 src1 (length (make nameLength)) = (r2, src2, got2, None) ->
          zRead r2 src2 (length chunk1) = (r3, src3, got3, None) ->
          let valueLength := dechunk version (fill chunk1 got3) in
          valueLength <= ls_bounds s - nameLength ->
          zRead r3 src3 (length (make valueLength)) = (r4, src4, got4, Some e) ->
          Decompress d data
          = (mkDecompressor (Some src4) (Some r4) version,
             (ls_allocs s ++ [nameLength]) ++ [valueLength], Err e)).
Proof.
  intros Hmax Hopen Hwidth Hread version chunk start Hk Hrun r1 src1 got1 e1 Hr1
         chunk1 nameLength.
  assert (Hstart : budget_kept (MAX_FRAME_SIZE - 12) start).
  { exists (Z.of_nat width), []. repeat split. unfold total. simpl. lia. }
  assert (Hs : budget_kept (MAX_FRAME_SIZE - 12) s).
  { pose proof (read_pairs_budget _ version k start Hmax Hstart) as Hb.
    rewrite Hrun in Hb. exact Hb. }
  pose proof (Decompress_loop d data src src0 got0 r r0 width Hopen Hwidth Hread) as Hloop.
  cbv zeta in Hloop. fold version chunk start in Hloop.
  replace (Z.to_nat (dechunk version chunk))
    with (k + S (Z.to_nat (dechunk version chunk) - S k))%nat in Hloop by lia.
  rewrite (read_pairs_add version k _ start s Hrun) in Hloop.
  cbn [read_pairs] in Hloop. unfold read_pair in Hloop. rewrite Hr1 in Hloop.
  fold chunk1 nameLength in Hloop.
  split.
  - intros e ->. exact Hloop.
  - intros -> Hle r2 src2 got2 r3 src3 got3 r4 src4 got4 e Hr2 Hr3 valueLength Hle' Hr4.
    destruct (Z.gtb_spec nameLength (ls_bounds s)); [lia|].
    rewrite Hr2, Hr3 in Hloop. fold valueLength in Hloop.
    destruct Hs as (w0 & sizes & _ & Hw & Hb).
    pose proof (within_budget_total _ _ Hw) as [Htot _].
    pose proof (dechunk_range version chunk1) as Hnl. fold nameLength in Hnl.
    rewrite (int_exact (ls_bounds s - nameLength)) in Hloop by lia.
    destruct (Z.gtb_spec valueLength (ls_bounds s - nameLength)); [lia|].
    rewrite Hr4 in Hloop. exact Hloop.
Qed.

(** ** A reader that cannot be opened *)

(** X4. When no zlib reader can be opened on the input (the version is not
    supported, or [NewReaderDict] fails and returns no reader),
    [Decompress] returns that error and allocates nothing; the decompressor
    keeps no reader, and its next call behaves as the first call of a new
    decompressor of that version. *)
Theorem Decompress_failed_open
    (unread : option (list byte)) (version : Z) (data src next : list byte) (e : error) :
  open_reader version (None : option R) data = (src, None, Some e) ->
  Decompress (mkDecompressor unread None version) data
  = (mkDecompressor (Some src) None version, [], Err e)
  /\ Decompress (mkDecompressor (Some src) (None : option R) version) next
     = Decompress (NewDecompressor version) next.
Proof.
  intros Hopen. split.
  - unfold Decompress. rewrite load_input_replaces.
    cbn [d_in d_out d_version default from_option id]. rewrite Hopen. reflexivity.
  - unfold Decompress, NewDecompressor. rewrite !load_input_replaces. reflexivity.
Qed.

End Allocations.

(** ** Several values under one name *)

Lemma bytes_Split_app_sep (seg rest : list byte) (sep : byte) :
  ~ In sep seg -> bytes_Split (seg ++ sep :: rest) sep = seg :: bytes_Split rest sep.
Proof.
  induction seg as [|b seg IH]; intros Hnot.
  - cbn [app bytes_Split]. by rewrite (Byte.byte_dec_lb (eq_refl sep)).
  - cbn [app bytes_Split]. destruct (Byte.eqb b sep) eqn:Heq.
    + apply Byte.byte_dec_bl in Heq. subst. exfalso. apply Hnot. by left.
    + rewrite IH; [reflexivity|]. intros Hin. apply Hnot. by right.
Qed.

(** Splitting undoes joining, for segments free of the separator. *)
Lemma bytes_Split_Join (segments : list (list byte)) (sep : byte) :
  segments <> [] ->
  Forall (fun seg => ~ In sep seg) segments ->
  bytes_Split (bytes_Join segments sep) sep = segments.
Proof.
  induction segments as [|seg rest IH]; intros Hne Hfree; [congruence|].
  apply Forall_cons in Hfree as [Hseg Hrest].
  destruct rest as [|seg' rest'].
  - cbn [bytes_Join]. by apply bytes_Split_whole.
  - change (bytes_Join (seg :: seg' :: rest') sep)
      with (seg ++ sep :: bytes_Join (seg' :: rest') sep).
    rewrite bytes_Split_app_sep by exact Hseg.
    rewrite IH; [reflexivity | congruence | exact Hrest].
Qed.

(** X3. Splitting on NUL undoes joining by NUL. When the value of a pair is
    one or more values, each free of NUL, joined by NUL, the loop adds
    exactly these values, in their order, after the values the name already
    has, and leaves every other name as it is. *)
Theorem add_values_joined
    (h : Header) (name : list byte) (values : list (list byte)) (key : string) :
  values <> [] ->
  Forall (fun seg => ~ In x00 seg) values ->
  add_values h name (bytes_Join values x00) !! key
  = if decide (string_of_list_byte name = key)
    then Some (default [] (h !! key) ++ map string_of_list_byte values)
    else h !! key.
Proof.
  intros Hne Hfree. rewrite add_values_lookup, bytes_Split_Join by assumption. reflexivity.
Qed.

(** ** Successive calls of [Compress] *)

Section CompressCalls.

Context {W : Type} `{ZW : ZlibWriter W} `{K : Constants}.

Lemma Compress_opened (c : Compressor W) (old : list byte) (w : W) (data : list byte) :
  c_buf c = Some old -> c_w c = Some w ->
  Compress c data = write_flush [] (Some w) (c_version c) data.
Proof. intros Hbuf Hw. unfold Compress. by rewrite Hbuf, Hw. Qed.

Lemma Compress_first (version : Z) (w0 : W) (data : list byte) :
  open_writer version None = (Some w0, None) ->
  Compress (NewCompressor version) data = write_flush [] (Some w0) version data.
Proof. intros Hopen. unfold Compress, NewCompressor. cbn. by rewrite Hopen. Qed.

(** What [write_flush] leaves and returns, by the outcome of the write. *)
Lemma write_flush_cases (w : W) (version : Z) (data : list byte) :
  (exists w1 written e,
     zWrite w data = (w1, written, Some e)
     /\ write_flush [] (Some w) version data
        = (mkCompressor (Some written) (Some w1) version, Err e))
  \/ (exists w1 written w2 flushed fe,
        zWrite w data = (w1, written, None)
        /\ zFlush w1 = (w2, flushed, fe)
        /\ write_flush [] (Some w) version data
           = (mkCompressor (Some (written ++ flushed)) (Some w2) version,
              Ok (written ++ flushed))).
Proof.
  unfold write_flush.
  destruct (zWrite w data) as [[w1 written] [e|]] eqn:Hwrite.
  - left. exists w1, written, e. split; reflexivity.
  - right. destruct (zFlush w1) as [[w2 flushed] fe] eqn:Hflush.
    exists w1, written, w2, flushed, fe.
    split; [reflexivity|]. split; [exact Hflush | reflexivity].
Qed.

Lemma compress_all_opened_no_panic (c : Compressor W) (old : list byte) (w : W)
    (inputs : list (list byte)) :
  c_buf c = Some old -> c_w c = Some w ->
  Forall (fun result => forall p, result <> Panicked p) (compress_all c inputs).
Proof.
  revert c old w. induction inputs as [|data inputs IH]; intros c old w Hbuf Hw;
    [constructor|].
  cbn [compress_all]. rewrite (Compress_opened c old w data Hbuf Hw).
  destruct (write_flush_cases w (c_version c) data)
    as [(w1 & written & e & _ & ->) | (w1 & written & w2 & flushed & fe & _ & _ & ->)].
  - constructor; [congruence | eapply IH; reflexivity].
  - constructor; [congruence | eapply IH; reflexivity].
Qed.

(** X6. For a version whose zlib writer is created without error, no call
    of [Compress] panics, however many calls are made and whatever the
    writer reports: each call returns compressed bytes or an error, also
    after a call that returned an error. *)
Theorem Compress_never_panics (version : Z) (w0 : W) (inputs : list (list byte)) :
  open_writer version None = (Some w0, None) ->
  Forall (fun result => forall p, result <> Panicked p)
         (compress_all (NewCompressor version) inputs).
Proof.
  intros Hopen. destruct inputs as [|data inputs]; [constructor|].
  cbn [compress_all]. rewrite (Compress_first version w0 data Hopen).
  destruct (write_flush_cases w0 version data)
    as [(w1 & written & e & _ & ->) | (w1 & written & w2 & flushed & fe & _ & _ & ->)].
  - constructor; [congruence | eapply compress_all_opened_no_panic; reflexivity].
  - constructor; [congruence | eapply compress_all_opened_no_panic; reflexivity].
Qed.

End CompressCalls.

(** * Further properties of the NOOP frame *)

Module NoopReading.
Import Frames.

Lemma byte_to_Z_inj (a b : byte) : byte_to_Z a = byte_to_Z b -> a = b.
Proof.
  unfold byte_to_Z. intros Heq. apply N2Z.inj in Heq.
  pose proof (Byte.of_to_N a) as Ha. rewrite Heq, Byte.of_to_N in Ha. congruence.
Qed.

Lemma be_value_two (a b : byte) : be_value [a; b] = byte_to_Z a * 256 + byte_to_Z b.
Proof.
  change [a; b] with (([] ++ [a]) ++ [b]). rewrite !be_value_snoc.
  unfold be_value. simpl. lia.
Qed.

Lemma be_value_three (a b c : byte) :
  be_value [a; b; c] = byte_to_Z a * 65536 + byte_to_Z b * 256 + byte_to_Z c.
Proof.
  change [a; b; c] with ((([] ++ [a]) ++ [b]) ++ [c]). rewrite !be_value_snoc.
  unfold be_value. simpl. lia.
Qed.

(** The first byte of a control frame of version 2 whose second byte
    completes the version. *)
Lemma control_version_two (b0 b1 : byte) :
  Z.testbit (byte_to_Z b0) 7 = true ->
  Z.lor (Z.shiftl (Z.land (byte_to_Z b0) 127) 8) (byte_to_Z b1) = 2 ->
  b0 = x80 /\ b1 = x02.
Proof.
  intros Hbit Hversion.
  rewrite lor_shiftl_byte in Hversion by apply byte_to_Z_range.
  pose proof (byte_to_Z_range b0) as H0. pose proof (byte_to_Z_range b1) as H1.
  assert (Hland : 0 <= Z.land (byte_to_Z b0) 127) by (apply Z.land_nonneg; lia).
  assert (Hlow : Z.land (byte_to_Z b0) 127 = 0) by lia.
  assert (Hb1 : byte_to_Z b1 = byte_to_Z x02) by (change (byte_to_Z x02) with 2; lia).
  split; [|by apply byte_to_Z_inj].
  clear - Hbit Hlow.
  destruct b0; vm_compute in Hbit; try discriminate Hbit;
    vm_compute in Hlow; try discriminate Hlow; reflexivity.
Qed.

(** The only five bytes the validation of the common header lets through
    for a NOOP frame. *)
Lemma common_header_of_noop (b0 b1 b2 b3 b4 : byte) :
  controlFrameCommonProcessing [b0; b1; b2; b3; b4] NOOP x00 = None ->
  [b0; b1; b2; b3; b4] = [x80; x02; x00; x05; x00].
Proof.
  unfold controlFrameCommonProcessing. cbn [nth].
  change (slice [b0; b1; b2; b3; b4] 2 4) with [b2; b3].
  destruct (Z.testbit (byte_to_Z b0) 7) eqn:Hbit; [|discriminate]. cbn [negb].
  destruct (Z.eqb_spec (Z.lor (Z.shiftl (Z.land (byte_to_Z b0) 127) 8) (byte_to_Z b1)) 2)
    as [Hversion|]; [|discriminate]. cbn [negb].
  destruct (Z.eqb_spec (bytesToUint16 [b2; b3]) NOOP) as [Htype|]; [|discriminate].
  cbn [negb].
  destruct (Z.eqb_spec (Z.land (byte_to_Z b4) (Z.lnot (byte_to_Z x00))) 0)
    as [Hflags|]; [|discriminate].
  intros _.
  destruct (control_version_two b0 b1 Hbit Hversion) as [-> ->].
  unfold bytesToUint16, NOOP in Htype. change (take 2 [b2; b3]) with [b2; b3] in Htype.
  rewrite be_value_two in Htype.
  change (Z.lnot (byte_to_Z x00)) with (-1) in Hflags. rewrite Z.land_m1_r in Hflags.
  pose proof (byte_to_Z_range b2). pose proof (byte_to_Z_range b3).
  rewrite (byte_to_Z_inj b2 x00) by (change (byte_to_Z x00) with 0; lia).
  rewrite (byte_to_Z_inj b3 x05) by (change (byte_to_Z x05) with 5; lia).
  rewrite (byte_to_Z_inj b4 x00) by (change (byte_to_Z x00) with 0; lia).
  reflexivity.
Qed.

Lemma zero_length (b5 b6 b7 : byte) :
  BytesToUint24 [b5; b6; b7] = 0 -> [b5; b6; b7] = [x00; x00; x00].
Proof.
  unfold BytesToUint24. change (take 3 [b5; b6; b7]) with [b5; b6; b7].
  rewrite be_value_three. intros Hzero.
  pose proof (byte_to_Z_range b5). pose proof (byte_to_Z_range b6).
  pose proof (byte_to_Z_range b7).
  rewrite (byte_to_Z_inj b5 x00) by (change (byte_to_Z x00) with 0; lia).
  rewrite (byte_to_Z_inj b6 x00) by (change (byte_to_Z x00) with 0; lia).
  rewrite (byte_to_Z_inj b7 x00) by (change (byte_to_Z x00) with 0; lia).
  reflexivity.
Qed.

(** X7. The outcomes of [ReadFrom], with the common header validated as the
    specification describes. On a source of fewer than 8 bytes it reports 0
    bytes consumed and the error of [ReadExactly]. On any other source it
    reports 8 bytes consumed and leaves the source after them, whether it
    accepts the frame or not; and it accepts, returning no error, exactly
    when those 8 bytes are [80 02 00 05 00 00 00 00]. *)
Theorem ReadFrom_outcomes (frame : NoopFrame) (reader : list byte) :
  ((length reader < 8)%nat -> ReadFrom frame reader = ([], 0, Some ShortRead))
  /\ ((8 <= length reader)%nat ->
      exists err,
        ReadFrom frame reader = (drop 8 reader, 8, err)
        /\ (err = None <-> take 8 reader = noop_bytes)).
Proof.
  split.
  - intros Hshort. unfold ReadFrom, ReadExactly.
    destruct (Nat.leb_spec 8 (length reader)); [lia | reflexivity].
  - intros Hlong.
    destruct reader as [|b0 [|b1 [|b2 [|b3 [|b4 [|b5 [|b6 [|b7 rest]]]]]]]];
      cbn [length] in Hlong; try lia.
    change (b0 :: b1 :: b2 :: b3 :: b4 :: b5 :: b6 :: b7 :: rest)
      with ([b0; b1; b2; b3; b4; b5; b6; b7] ++ rest).
    unfold ReadFrom.
    rewrite (NoopProperties.ReadExactly_enough [b0; b1; b2; b3; b4; b5; b6; b7] rest 8 eq_refl).
    change (slice [b0; b1; b2; b3; b4; b5; b6; b7] 0 5) with [b0; b1; b2; b3; b4].
    change (slice [b0; b1; b2; b3; b4; b5; b6; b7] 5 8) with [b5; b6; b7].
    change (drop 8 ([b0; b1; b2; b3; b4; b5; b6; b7] ++ rest)) with rest.
    change (take 8 ([b0; b1; b2; b3; b4; b5; b6; b7] ++ rest))
      with [b0; b1; b2; b3; b4; b5; b6; b7].
    destruct (controlFrameCommonProcessing [b0; b1; b2; b3; b4] NOOP x00) as [e|] eqn:Hcommon.
    + exists (Some e). split; [reflexivity|]. split; [discriminate|].
      intros [= -> -> -> -> -> _ _ _]. vm_compute in Hcommon. discriminate Hcommon.
    + apply common_header_of_noop in Hcommon. injection Hcommon as -> -> -> -> ->.
      destruct (Z.eqb_spec (BytesToUint24 [b5; b6; b7]) 0) as [Hzero|Hnonzero]; cbn [negb].
      * exists None. split; [reflexivity|]. split; [intros _|reflexivity].
        apply zero_length in Hzero. injection Hzero as -> -> ->. reflexivity.
      * eexists. split; [reflexivity|]. split; [discriminate|].
        intros [= -> -> ->]. exfalso. apply Hnonzero. reflexivity.
Qed.

End NoopReading.

(** * Properties of requests *)

Module RequestProperties.
Import Requests.

Section Requests.

Context {URL RC RD MR Form : Type} `{L : Library URL RC RD MR}.

Local Abbreviation Req := (Request URL RC RD Form).

(** X8. [ProtoAtLeast] compares versions in the order major, then minor:
    a request is at least its own version, and a request that is at least
    some version is at least every version that is not greater. *)
Theorem ProtoAtLeast_order (r : Req) :
  ProtoAtLeast r (r_ProtoMajor r) (r_ProtoMinor r) = true
  /\ forall major minor major' minor',
       ProtoAtLeast r major minor = true ->
       major' < major \/ (major' = major /\ minor' <= minor) ->
       ProtoAtLeast r major' minor' = true.
Proof.
  unfold ProtoAtLeast. split.
  - rewrite Z.eqb_refl. destruct (Z.geb_spec (r_ProtoMinor r) (r_ProtoMinor r)); [|lia].
    apply orb_true_r.
  - intros major minor major' minor' Hat Hle.
    apply orb_true_iff in Hat. apply orb_true_iff.
    destruct (Z.gtb_spec (r_ProtoMajor r) major'); [by left | right].
    apply andb_true_iff.
    destruct Hat as [Hgt | Heq].
    + destruct (Z.gtb_spec (r_ProtoMajor r) major); [lia | discriminate].
    + apply andb_true_iff in Heq as [Hmaj Hmin].
      apply Z.eqb_eq in Hmaj.
      destruct (Z.geb_spec (r_ProtoMinor r) minor); [|discriminate].
      split; [apply Z.eqb_eq; lia|].
      destruct (Z.geb_spec (r_ProtoMinor r) minor'); [reflexivity | lia].
Qed.

(** X9. A request built by [NewRequest] is an HTTP/1.1 request: it is at
    least version [major.minor] exactly for the versions up to 1.1. Its
    content length is the number of unread bytes of a [bytes.Buffer],
    [bytes.Reader] or [strings.Reader] body and 0 for every other body; it
    has a body exactly when one was given; its host is the host of the
    parsed URL. *)
Theorem NewRequest_request (method urlStr : string) (body : BodyArg RC RD) (r : Req) :
  NewRequest method urlStr body = Ok r ->
  (forall major minor,
     ProtoAtLeast r major minor = true <-> major < 1 \/ (major = 1 /\ minor <= 1))
  /\ r_ContentLength r
     = match body with
       | BytesBuffer unread | BytesReader unread => Z.of_nat (length unread)
       | StringsReader unread => Z.of_nat (String.length unread)
       | _ => 0
       end
  /\ (r_Body r = None <-> body = NoBody)
  /\ (exists u, url_Parse urlStr = (Some u, None) /\ r_URL r = Some u /\ r_Host r = url_Host u)
  /\ r_Method r = method.
Proof.
  unfold NewRequest. destruct (url_Parse urlStr) as [[u|] [e|]]; try discriminate.
  intros [= <-]. cbn [r_ContentLength r_Body r_URL r_Host r_Method].
  split; [|split; [reflexivity|split; [|split; [by exists u | reflexivity]]]].
  - intros major minor. unfold ProtoAtLeast. cbn [r_ProtoMajor r_ProtoMinor].
    rewrite orb_true_iff, andb_true_iff, Z.eqb_eq, Z.gtb_lt, Z.geb_le. lia.
  - destruct body; split; intros H; try discriminate; reflexivity.
Qed.

(** X10. [MultipartReader] hands out a reader at most once. Whatever a
    first call returns, it leaves every field of the request but
    [MultipartForm] as it was; a second call returns an error and changes
    nothing: the error of a second call, or, when the form had already been
    parsed, the error that says so. *)
Theorem MultipartReader_once (r : Req) :
  let first := MultipartReader r in
  MultipartReader first.1
  = (first.1,
     Err (match r_MultipartForm r with
          | parsedForm _ => errorString "spdy: multipart handled by ParseMultipartForm"
          | _ => errorString "spdy: MultipartReader called twice"
          end))
  /\ (r_Method first.1, r_URL first.1, r_Proto first.1, r_ProtoMajor first.1,
      r_ProtoMinor first.1, r_Header first.1, r_Body first.1, r_ContentLength first.1,
      r_Host first.1)
     = (r_Method r, r_URL r, r_Proto r, r_ProtoMajor r, r_ProtoMinor r, r_Header r,
        r_Body r, r_ContentLength r, r_Host r).
Proof.
  unfold MultipartReader.
  destruct (r_MultipartForm r) as [| |f] eqn:Hform; cbn [fst]; rewrite ?Hform;
    split; reflexivity.
Qed.

(** A first [MultipartReader] on a request whose form is untouched
    returns a reader exactly when the [Content-Type] header is not empty,
    parses without error to the media type [multipart/form-data] and has a
    [boundary] parameter; the reader is made over the body of the request
    with that boundary. Without the parameter the error is
    [ErrMissingBoundary]; in every other case it is [ErrNotMultipart]. *)
Theorem MultipartReader_first (r : Req) :
  r_MultipartForm r = nilForm ->
  let v := Header_Get (r_Header r) "Content-Type" in
  let '(d, params, err) := mime_ParseMediaType v in
  let multipart := v <> "" /\ err = None /\ d = "multipart/form-data" in
  (multipart ->
   (MultipartReader r).2
   = match params !! "boundary" with
     | Some boundary => Ok (multipart_NewReader (r_Body r) boundary)
     | None => Err ErrMissingBoundary
     end)
  /\ (~ multipart -> (MultipartReader r).2 = Err ErrNotMultipart).
Proof.
  intros Hform v. unfold MultipartReader, multipartReader. rewrite Hform.
  cbn [snd r_Header r_Body]. fold v.
  destruct (mime_ParseMediaType v) as [[d params] err].
  destruct (String.eqb_spec v "") as [Hv|Hv].
  - split; [intros [Hne _]; contradiction | reflexivity].
  - destruct err as [e|]; cbn [orb].
    + split; [intros (_ & He & _); discriminate | reflexivity].
    + destruct (String.eqb_spec d "multipart/form-data") as [Hd|Hd]; cbn [negb].
      * split; [reflexivity | intros Hnot; exfalso; apply Hnot; auto].
      * split; [intros (_ & _ & Hd'); contradiction | reflexivity].
Qed.

End Requests.

End RequestProperties.

(** * Runs of the model with the codec without compression *)

Module Runs.
Import Plain.

Example bytes_Split_two : bytes_Split [x62; x00; x63] x00 = [[x62]; [x63]].
Proof. reflexivity. Qed.

Example bytes_Split_empty : bytes_Split [] x00 = [[]].
Proof. reflexivity. Qed.

Example bytes_Split_trailing : bytes_Split [x62; x00] x00 = [[x62]; []].
Proof. reflexivity. Qed.

Example wire_block_sample :
  wire_block 2 sample_pairs
  = [x00; x03;
     x00; x01; x61; x00; x03; x62; x00; x63;
     x00; x01; x64; x00; x00;
     x00; x01; x61; x00; x01; x65].
Proof. reflexivity. Qed.

Example Decompress_sample :
  Decompress (NewDecompressor 2 : Decompressor unit) (wire_block 2 sample_pairs)
  = (mkDecompressor (Some []) (Some tt) 2, [2; 1; 3; 1; 0; 1; 1],
     Ok (<["a" := ["b"; "c"; "e"]]> (<["d" := [""]]> ∅))).
Proof. vm_compute. reflexivity. Qed.

(** A block cut short after the first byte of a two-byte name: the read of
    the name is served one byte, without error, and the next read meets the
    end of the stream. *)
Example Decompress_cut_short :
  Decompress (NewDecompressor 2 : Decompressor unit) [x00; x01; x00; x02; x61]
  = (mkDecompressor (Some []) (Some tt) 2, [2; 2], Panicked (PanicError EOF)).
Proof. vm_compute. reflexivity. Qed.

Lemma Compress_unsupported_second_call_panics_witness :
  (Compress (Compress (NewCompressor 4 : Compressor unit) [x00; x00]).1 [x00; x00]).2
  = Panicked NilPointerDereference.
Proof.
  apply (Compress_unsupported_second_call_panics (R := unit) 4 [x00; x00] [x00; x00] []); lia.
Defined.

Lemma Decompress_panics_on_count_read_error_witness :
  Decompress (NewDecompressor 2 : Decompressor unit) []
  = (mkDecompressor (Some []) (Some tt) 2, [2], Panicked (PanicError Plain.EOF)).
Proof.
  apply (Decompress_panics_on_count_read_error
           (NewDecompressor 2 : Decompressor unit) [] [] [] [] tt tt 2 Plain.EOF);
    reflexivity.
Defined.

Lemma Decompress_returns_read_errors_witness :
  Decompress (NewDecompressor 2 : Decompressor unit) [x00; x01]
  = (mkDecompressor (Some []) (Some tt) 2, [2], Err EOF).
Proof.
  refine (proj1 (Decompress_returns_read_errors
            (NewDecompressor 2 : Decompressor unit) [x00; x01] [x00; x01] []
            [x00; x01] tt tt 2 0 _ _ eq_refl eq_refl eq_refl _ eq_refl
            tt [] [] (Some EOF) eq_refl) EOF eq_refl).
  - vm_compute. reflexivity.
  - vm_compute. lia.
Defined.

Lemma Decompress_failed_open_witness :
  Decompress (mkDecompressor None (None : option unit) 4) [x00; x00]
  = (mkDecompressor (Some [x00; x00]) None 4, [], Err versionError)
  /\ Decompress (mkDecompressor (Some [x00; x00]) (None : option unit) 4) [x01]
     = Decompress (NewDecompressor 4) [x01].
Proof.
  apply (Decompress_failed_open (R := unit) None 4 [x00; x00] [x00; x00] [x01] versionError).
  reflexivity.
Defined.

Lemma Compress_never_panics_witness :
  Forall (fun result : Result (list byte) => forall p, result <> Panicked p)
         (compress_all (NewCompressor 2 : Compressor unit) [[x01]; []; [x02; x03]]).
Proof.
  apply (Compress_never_panics 2 tt [[x01]; []; [x02; x03]]). reflexivity.
Defined.

Import Requests.

Lemma NewRequest_request_witness :
  exists r : Request string unit unit unit,
    NewRequest "GET" "example.org" (BytesBuffer [x61; x62; x63]) = Ok r
    /\ r_ContentLength r = 3
    /\ (forall major minor,
          ProtoAtLeast r major minor = true <-> major < 1 \/ (major = 1 /\ minor <= 1)).
Proof.
  eexists. split; [reflexivity|].
  pose proof (RequestProperties.NewRequest_request (Form := unit)
                "GET" "example.org" (BytesBuffer [x61; x62; x63]) _ eq_refl)
    as (Hproto & Hlength & _).
  split; [exact Hlength | exact Hproto].
Defined.

Lemma MultipartReader_first_witness :
  (MultipartReader
     (mkRequest "POST" (Some "example.org"%string) "HTTP/1.1" 1 1
                (<["Content-Type" := ["multipart/form-data"]]> ∅)
                (None : option (ReadCloser unit unit)) 0 "example.org"
                (nilForm : FormRef unit))).2
  = Ok "x"%string.
Proof.
  refine (proj1 (RequestProperties.MultipartReader_first
            (mkRequest "POST" (Some "example.org"%string) "HTTP/1.1" 1 1
                       (<["Content-Type" := ["multipart/form-data"]]> ∅)
                       (None : option (ReadCloser unit unit)) 0 "example.org"
                       (nilForm : FormRef unit)) eq_refl) _).
  vm_compute. repeat split. discriminate.
Defined.


Lemma add_values_joined_witness :
  add_values ∅ [x61] (bytes_Join [[x62]; []; [x63; x64]] x00) !! "a"%string
  = Some ["b"; ""; "cd"]%string.
Proof.
  rewrite (add_values_joined ∅ [x61] [[x62]; []; [x63; x64]] "a").
  - reflexivity.
  - discriminate.
  - repeat constructor; cbn; intuition discriminate.
Defined.

End Runs.

(** * Runs of the model with the zlib codec that stores *)

Ltac run_lhs :=
  match goal with
  | |- ?l = _ => let v := eval vm_compute in l in
                 replace l with v by (vm_compute; reflexivity)
  end.

Ltac served_by_run :=
  repeat (eapply served_cons; [run_lhs; reflexivity|]); apply served_nil.

Module StoredRuns.
Import Plain Stored.

(** The stream of a block with an empty value, and its exchange: the first
    call returns the end of the stream met by the read of the value, and
    the reader reports it again at the next call, which panics. *)
Example exchange_empty_value :
  exchange (NewCompressor 3 : Compressor Deflate) (NewDecompressor 3 : Decompressor Inflate)
           [wire_block 3 [([x61], [])]; wire_block 3 [([x61], [x62])]]
  = [Err unexpectedEOF; Panicked (PanicError unexpectedEOF)].
Proof. vm_compute. reflexivity. Qed.

Lemma exchange_fails_on_empty_value_witness :
  exchange (NewCompressor 3 : Compressor Deflate) (NewDecompressor 3 : Decompressor Inflate)
           [wire_block 3 [([x61], [])]]
  = [Err unexpectedEOF]
  /\ forall h, encodes [([x61], [])] h -> h !! string_of_list_byte [x61] = Some [""%string].
Proof.
  eapply (exchange_fails_on_empty_value 3 (NewCompressor 3 : Compressor Deflate) _
            (NewDecompressor 3 : Decompressor Inflate) [x61]).
  - right. reflexivity.
  - reflexivity.
  - vm_compute. reflexivity.
  - vm_compute. discriminate.
  - vm_compute. reflexivity.
  - run_lhs. reflexivity.
  - run_lhs. reflexivity.
  - served_by_run.
  - run_lhs. reflexivity.
Defined.

Lemma Decompress_accepts_short_value_witness :
  exists h,
    (Decompress (NewDecompressor 3 : Decompressor Inflate)
                (two_writes [] (take 16 six_block) (drop 16 six_block))).2 = Ok h
    /\ h !! "n"%string = Some ["abc"; ""; ""; ""]%string
    /\ ~ encodes [([x6e], [x61; x62; x63; x64; x65; x66])] h.
Proof.
  epose proof (Decompress_accepts_short_value 3 (or_intror eq_refl)
                 (NewDecompressor 3 : Decompressor Inflate)
                 (two_writes [] (take 16 six_block) (drop 16 six_block)) ?[src]
                 [x6e] [x61; x62; x63; x64; x65; x66]
                 ?[r] ?[r3] ?[r4] ?[src3] ?[src4] ?[got]) as Hthm.
  edestruct Hthm as (h & Hrun & Hlookup & Hnot).
  - reflexivity.
  - vm_compute. reflexivity.
  - vm_compute. reflexivity.
  - vm_compute. discriminate.
  - vm_compute. reflexivity.
  - cbn. intuition discriminate.
  - run_lhs. reflexivity.
  - served_by_run.
  - run_lhs. reflexivity.
  - vm_compute. lia.
  - exists h. rewrite Hrun. split; [reflexivity|]. split; [|exact Hnot].
    etransitivity; [exact Hlookup|]. vm_compute. reflexivity.
Defined.

(** Counterexample to C5. One compressor compresses three blocks. The
    decompressor is handed the first two outputs in one call: it returns
    the Header of the first block, and the second output stays unread in
    the source buffer. The next call, on the third output, does not find it
    there: the buffer holds the third output alone. *)
Lemma second_block_is_dropped :
  exists out1 out2 out3,
    compress_all (NewCompressor 3 : Compressor Deflate) three_blocks
    = [Ok out1; Ok out2; Ok out3]
    /\ out2 <> []
    /\ let first := Decompress (NewDecompressor 3 : Decompressor Inflate) (out1 ++ out2) in
       first.2 = Ok (<["a"%string := ["b"%string]]> ∅)
       /\ d_in first.1.1 = Some out2
       /\ d_in (load_input first.1.1 out3) = Some out3
       /\ d_in (load_input first.1.1 out3) <> Some (out2 ++ out3).
Proof.
  eexists _, _, _. split; [run_lhs; reflexivity|].
  split; [discriminate|]. vm_compute. repeat split. discriminate.
Qed.

End StoredRuns.
